(** * IMDb filmography synchronisation: a model of [src/index.js] and of the
    older variant [src/unnamed/part_000]

    The JavaScript program reads the talents that have no row yet in
    [tblImdbMetaData], fetches the IMDb page of each, decodes the JSON of the
    [__NEXT_DATA__] script and inserts one row per credit.

    The development follows the program:
    - [value] is what [JSON.parse] hands to the program, with the JavaScript
      operations the program applies to it (truthiness, property reads,
      optional chaining, [toString], template literals);
    - [extractImdbId] is the regular expression of the identifier extractor;
    - [Index] and [Part000] hold the two versions of
      [extractFilmographyFromHtml];
    - [Driver] is [processAllExistingImdbLinks] and the top-level async
      function, over a state that holds the output table and the console. *)

From Stdlib Require Import ZArith List String Ascii Bool Lia DecimalString.
Import ListNotations.
Local Open Scope string_scope.
Local Open Scope list_scope.

Set Warnings "-register-all".

(** String concatenation, the [+] of JavaScript on strings. *)
Infix "+++" := String.append (at level 60, right associativity).

(** ** Exceptions *)

(** What a JavaScript [throw] carries, as far as the program distinguishes
    it: the [TypeError] of the language, the [Error] raised by
    [fetchImdbPage] on a response that is not ok, a rejected [fetch] or
    [response.text()], and an error of the [mssql] driver. *)
Inductive error : Type :=
| TypeError
| FetchError (status : Z)
| NetworkError
| SqlError.

(** [inl e]: the expression threw [e]; [inr a]: it evaluated to [a]. *)
Definition result (A : Type) : Type := (error + A)%type.

Definition ok {A} (a : A) : result A := inr a.
Definition throw {A} (e : error) : result A := inl e.

Definition rbind {A B} (r : result A) (k : A -> result B) : result B :=
  match r with
  | inl e => inl e
  | inr a => k a
  end.

Declare Scope js_scope.
Delimit Scope js_scope with js.
Notation "x <- r ;; k" := (rbind r (fun x => k))
  (at level 61, r at next level, right associativity) : js_scope.
Local Open Scope js_scope.

(** [xs.map(f)] for an [f] that may throw: the first exception aborts. *)
Fixpoint mapR {A B} (f : A -> result B) (xs : list A) : result (list B) :=
  match xs with
  | [] => ok []
  | x :: rest =>
      y <- f x ;;
      ys <- mapR f rest ;;
      ok (y :: ys)
  end.

(** ** Values *)

(** A JavaScript value as [JSON.parse] builds it, plus [undefined], which
    property reads produce.  Numbers are the integers: the fields the program
    reads (years, episode totals) are integers, which a double holds exactly
    below 2^53.  An object is the list of its own properties; a read takes
    the first binding of the name. *)
Inductive value : Type :=
| VUndefined
| VNull
| VBool (b : bool)
| VNum (n : Z)
| VStr (s : string)
| VArr (xs : list value)
| VObj (props : list (string * value)).

(** [v == null]: the test of [?.] *)
Definition nullish (v : value) : bool :=
  match v with
  | VUndefined | VNull => true
  | _ => false
  end.

(** ToBoolean, as [!v], [v || d] and [v ? a : b] apply it. *)
Definition truthy (v : value) : bool :=
  match v with
  | VUndefined | VNull => false
  | VBool b => b
  | VNum n => negb (n =? 0)%Z
  | VStr s => negb (s =? "")
  | VArr _ | VObj _ => true
  end.

Fixpoint own (props : list (string * value)) (k : string) : option value :=
  match props with
  | [] => None
  | (k', v) :: rest => if k' =? k then Some v else own rest k
  end.

(** [v.k] on a value that is not nullish, for a name [k] that no prototype
    defines and that is not an index: every name the program reads, except
    [toString], is such a name.  Only an object can hold it. *)
Definition get (v : value) (k : string) : value :=
  match v with
  | VObj props =>
      match own props k with
      | Some x => x
      | None => VUndefined
      end
  | _ => VUndefined
  end.

(** [v[0]] on a value that is not nullish: the first element of an array,
    the first character of a string, the property ["0"] of an object. *)
Definition get0 (v : value) : value :=
  match v with
  | VArr (x :: _) => x
  | VStr (String c _) => VStr (String c "")
  | VObj props =>
      match own props "0" with
      | Some x => x
      | None => VUndefined
      end
  | _ => VUndefined
  end.

(** [v?.k] and [v?.[0]] where nothing follows in the chain, or where every
    later link is optional too. *)
Definition oget (v : value) (k : string) : value :=
  if nullish v then VUndefined else get v k.

Definition oget0 (v : value) : value :=
  if nullish v then VUndefined else get0 v.

Notation "v ?. k" := (oget v k) (at level 2, left associativity, format "v ?. k") : js_scope.

(** [v?.rest] where [rest] has links that are not optional: a nullish [v]
    ends the whole chain with [undefined], otherwise [rest] is evaluated. *)
Definition chain (v : value) (rest : value -> result value) : result value :=
  if nullish v then ok VUndefined else rest v.

(** [a || b] with [b] evaluated only when [a] is falsy. *)
Definition or_else (a : value) (b : value) : value :=
  if truthy a then a else b.

Notation "a '|||' b" := (or_else a b) (at level 50, left associativity) : js_scope.

(** Number.prototype.toString on an integer. *)
Definition Number_toString (n : Z) : string :=
  NilZero.string_of_int (Z.to_int n).

(** ToString, as a template literal and [Array.prototype.join] apply it.  An
    array is joined with commas, [null] and [undefined] elements giving the
    empty string.  An object without a property [toString] of its own
    inherits Object.prototype.toString; one with such a property has a value
    there that is not callable, [valueOf] gives back the object, and the
    conversion throws. *)
Fixpoint ToString (v : value) : result string :=
  match v with
  | VUndefined => ok "undefined"
  | VNull => ok "null"
  | VBool true => ok "true"
  | VBool false => ok "false"
  | VNum n => ok (Number_toString n)
  | VStr s => ok s
  | VArr xs =>
      let element (x : value) : result string :=
        if nullish x then ok "" else ToString x in
      (fix join (l : list value) : result string :=
         match l with
         | [] => ok ""
         | [x] => element x
         | x :: rest =>
             s <- element x ;;
             r <- join rest ;;
             ok (s +++ "," +++ r)
         end) xs
  | VObj props =>
      match own props "toString" with
      | Some _ => throw TypeError
      | None => ok "[object Object]"
      end
  end.

(** [v.toString()]: reading a property of [null] or [undefined] throws;
    every other value finds the method of its prototype, or, for an object
    that has a property [toString] of its own, a value that cannot be
    called. *)
Definition toString (v : value) : result value :=
  if nullish v then throw TypeError
  else s <- ToString v ;; ok (VStr s).

(** [v?.toString()] *)
Definition otoString (v : value) : result value :=
  chain v toString.

(** ** The identifier extractor *)

Definition is_digit (c : ascii) : bool :=
  ((48 <=? nat_of_ascii c) && (nat_of_ascii c <=? 57))%nat.

(** [\d+] is greedy and nothing after it can fail: it takes the longest run
    of digits. *)
Fixpoint take_digits (s : string) : string :=
  match s with
  | String c rest => if is_digit c then String c (take_digits rest) else ""
  | "" => ""
  end.

Fixpoint strip_prefix (p s : string) : option string :=
  match p, s with
  | "", _ => Some s
  | String a p', String b s' => if Ascii.eqb a b then strip_prefix p' s' else None
  | String _ _, "" => None
  end.

(** The regular expression [/\/name\/(nm\d+)\/?/] tried at the head of [s];
    the result is the first group.  The trailing [\/?] matches with or
    without a slash, so it never makes the attempt fail. *)
Definition match_here (s : string) : option string :=
  match strip_prefix "/name/nm" s with
  | Some rest =>
      match take_digits rest with
      | "" => None
      | ds => Some ("nm" +++ ds)
      end
  | None => None
  end.

(** [s.match(re)] without the [g] flag: the leftmost position where the
    expression matches. *)
Fixpoint regex_search (s : string) : option string :=
  match match_here s with
  | Some m => Some m
  | None =>
      match s with
      | "" => None
      | String _ rest => regex_search rest
      end
  end.

(** [extractImdbId(url)], the same in both files.  [url] is the [IMDBLink]
    column: [None] is [null]; [!url] also holds for the empty string.  The
    result is [null] ([None]) or the identifier. *)
Definition extractImdbId (url : option string) : option string :=
  match url with
  | None => None
  | Some s => if s =? "" then None else regex_search s
  end.

(** ** The console *)

(** One constructor per message of the program, with the values it
    interpolates; [level] tells [console.log], [console.warn] and
    [console.error] apart. *)
Inductive level : Type := LLog | LWarn | LError.

Inductive message (credit : Type) : Type :=
| MsgNextDataNotFound
| MsgParseFailed
| MsgNoFilmography
| MsgProcessing (TalentID : Z) (imdbId : option string)
| MsgNoValidId (TalentID : Z)
| MsgFound (n : nat) (TalentID : Z)
| MsgInserting (c : credit)
| MsgTalentError (TalentID : Z) (err : error)
| MsgDatabaseError (err : error)
| MsgFinished
| MsgUnexpected (err : error).

Arguments MsgNextDataNotFound {credit}.
Arguments MsgParseFailed {credit}.
Arguments MsgNoFilmography {credit}.
Arguments MsgProcessing {credit}.
Arguments MsgNoValidId {credit}.
Arguments MsgFound {credit}.
Arguments MsgInserting {credit}.
Arguments MsgTalentError {credit}.
Arguments MsgDatabaseError {credit}.
Arguments MsgFinished {credit}.
Arguments MsgUnexpected {credit}.

Definition message_level {credit} (m : message credit) : level :=
  match m with
  | MsgNextDataNotFound | MsgParseFailed => LError
  | MsgNoFilmography | MsgNoValidId _ => LWarn
  | MsgTalentError _ _ | MsgDatabaseError _ | MsgUnexpected _ => LError
  | MsgProcessing _ _ | MsgFound _ _ | MsgInserting _ | MsgFinished => LLog
  end.

(** ** Arrays *)

Definition Array_isArray (v : value) : bool :=
  match v with
  | VArr _ => true
  | _ => false
  end.

(** The elements a [for ... of] visits, for a value that passed
    [Array.isArray]. *)
Definition elements (v : value) : list value :=
  match v with
  | VArr xs => xs
  | _ => []
  end.

Fixpoint characters (s : string) : list value :=
  match s with
  | "" => []
  | String c rest => VStr (String c "") :: characters rest
  end.

(** [...v] inside an array literal: an array gives its elements, a string
    its characters; nothing else the decoder builds is iterable. *)
Definition spread (v : value) : result (list value) :=
  match v with
  | VArr xs => ok xs
  | VStr s => ok (characters s)
  | _ => throw TypeError
  end.

(** What [flatMap] appends for one value of its callback: the elements of an
    array, or the value itself. *)
Definition flatten1 (v : value) : list value :=
  match v with
  | VArr xs => xs
  | _ => [v]
  end.

Definition flatMap (f : value -> value) (xs : list value) : list value :=
  flat_map (fun x => flatten1 (f x)) xs.

(** The template literal of both versions:
    [`https://www.imdb.com/title/${id}/`]. *)
Definition title_url (id : value) : result value :=
  s <- ToString id ;;
  ok (VStr ("https://www.imdb.com/title/" +++ s +++ "/")).

(** The path both versions walk down to the credit groups. *)
Definition mainColumnData (imdbJson : value) : value :=
  imdbJson?."props"?."pageProps"?."mainColumnData".

(** ** [src/index.js] *)
Module Index.

(** The object pushed on [credits]. *)
Record credit : Type := Credit {
  title : value;
  titleUrl : value;
  fromYear : value;
  toYear : value;
  noOfEpisodes : value;
  type : value;
  role : value;
  currentProductionStage : value
}.

(** [node?.episodeCredits?.yearRange?.year.toString()]: the last two links
    are not optional. *)
Definition episode_year (node : value) : result value :=
  chain node (fun n =>
  chain (get n "episodeCredits") (fun ec =>
  chain (get ec "yearRange") (fun yr =>
  toString (get yr "year")))).

(** [node?.title?.releaseYear?.year.toString()] *)
Definition release_year (node : value) : result value :=
  chain node (fun n =>
  chain (get n "title") (fun t =>
  chain (get t "releaseYear") (fun ry =>
  toString (get ry "year")))).

(** Line 142: [episode_year || release_year || '']; the release year is
    evaluated only when the episode year is falsy. *)
Definition fromYear_of (node : value) : result value :=
  a <- episode_year node ;;
  if truthy a then ok a
  else b <- release_year node ;; ok (b ||| VStr "").

(** Line 143:
    [node?.episodeCredits?.yearRange?.endYear?.toString() || null] *)
Definition toYear_of (node : value) : result value :=
  c <- otoString node?."episodeCredits"?."yearRange"?."endYear" ;;
  ok (c ||| VNull).

(** The body of the loop over [edges], lines 137 to 149. *)
Definition edge_credit (edge : value) : result credit :=
  let node := edge?."node" in
  let title := node?."title"?."titleText"?."text" ||| VStr "" in
  titleUrl <-
    (if truthy node?."title"?."id"
     then title_url (get (get node "title") "id")
     else ok (VStr "")) ;;
  fromYear <- fromYear_of node ;;
  toYear <- toYear_of node ;;
  let noOfEpisodes := node?."episodeCredits"?."total" ||| VNum 0 in
  let type := node?."title"?."titleType"?."text" ||| VStr "" in
  let role :=
    (oget0 node?."characters")?."name" ||| node?."category"?."text" ||| VStr "" in
  let currentProductionStage :=
    node?."title"?."productionStatus"?."currentProductionStage"?."text"
    ||| VStr "" in
  ok (Credit title titleUrl fromYear toYear noOfEpisodes type role
        currentProductionStage).

(** Lines 125 to 130: the edges of the released groups, then those of the
    unreleased ones. *)
Definition collect_edges (imdbJson : value) : result value :=
  let released :=
    (mainColumnData imdbJson)?."releasedPrimaryCredits" ||| VArr [] in
  let unreleased :=
    (mainColumnData imdbJson)?."unreleasedPrimaryCredits" ||| VArr [] in
  r <- spread released ;;
  u <- spread unreleased ;;
  ok (VArr (flatMap (fun credit => credit?."credits"?."edges" ||| VArr [])
              (r ++ u))).

(** Lines 124 to 151, once the JSON is decoded.  The console lines come
    with the outcome. *)
Definition credits_of_json (imdbJson : value)
  : list (message credit) * result (list credit) :=
  match collect_edges imdbJson with
  | inl e => ([], throw e)
  | inr edges =>
      if negb (truthy edges) || negb (Array_isArray edges)
      then ([MsgNoFilmography], ok [])
      else ([], mapR edge_credit (elements edges))
  end.

Section Libraries.

(** [cheerio.load(html)] followed by [$("#__NEXT_DATA__").html()]:
    [None] is the [null] of an empty selection. *)
Variable next_data_html : string -> option string.

(** [JSON.parse]; [None] is its [SyntaxError]. *)
Variable JSON_parse : string -> option value.

Definition extractFilmographyFromHtml (html : string)
  : list (message credit) * result (list credit) :=
  match next_data_html html with
  | None => ([MsgNextDataNotFound], ok [])
  | Some nextDataScript =>
      if nextDataScript =? "" then ([MsgNextDataNotFound], ok [])
      else
        match JSON_parse nextDataScript with
        | None => ([MsgParseFailed], ok [])
        | Some imdbJson => credits_of_json imdbJson
        end
  end.

End Libraries.

End Index.

(** ** [src/unnamed/part_000], the older version *)
Module Part000.

Record credit : Type := Credit {
  title : value;
  titleUrl : value;
  year : value;
  type : value;
  role : value
}.

(** The body of the loop over [edges], lines 130 to 138. *)
Definition edge_credit (edge : value) : result credit :=
  let node := edge?."node" in
  let title := node?."title"?."titleText"?."text" ||| VStr "" in
  titleUrl <-
    (if truthy node?."title"?."id"
     then title_url (get (get node "title") "id")
     else ok (VStr "")) ;;
  y <- otoString node?."title"?."releaseYear"?."year" ;;
  let year := y ||| VStr "" in
  let type := node?."title"?."titleType"?."text" ||| VStr "" in
  let role := (oget0 node?."characters")?."name" ||| VStr "" in
  ok (Credit title titleUrl year type role).

(** Lines 122 to 124. *)
Definition first_group_edges (imdbJson : value) : value :=
  (oget0 (mainColumnData imdbJson)?."releasedPrimaryCredits")
    ?."credits"?."edges".

(** Lines 122 to 140, once the JSON is decoded. *)
Definition credits_of_json (imdbJson : value)
  : list (message credit) * result (list credit) :=
  let edges := first_group_edges imdbJson in
  if negb (truthy edges) || negb (Array_isArray edges)
  then ([MsgNoFilmography], ok [])
  else ([], mapR edge_credit (elements edges)).

Section Libraries.

Variable next_data_html : string -> option string.
Variable JSON_parse : string -> option value.

Definition extractFilmographyFromHtml (html : string)
  : list (message credit) * result (list credit) :=
  match next_data_html html with
  | None => ([MsgNextDataNotFound], ok [])
  | Some nextDataScript =>
      if nextDataScript =? "" then ([MsgNextDataNotFound], ok [])
      else
        match JSON_parse nextDataScript with
        | None => ([MsgParseFailed], ok [])
        | Some imdbJson => credits_of_json imdbJson
        end
  end.

End Libraries.

End Part000.

(** ** The sync driver of [src/index.js] *)
Module Driver.

Import Index.

(** A row of [tblTalentIMDBResume] as the query returns it; a [NULL] link
    is [None]. *)
Record talent : Type := Talent {
  TalentID : Z;
  IMDBLink : option string
}.

(** A row of [tblImdbMetaData]: the talent and the columns taken from one
    credit. *)
Record metadata : Type := Metadata {
  TalentId : Z;
  columns : credit
}.

(** What [fetch] resolves to: [response.ok], [response.status] and the
    outcome of [response.text()]. *)
Record response : Type := Response {
  response_ok : bool;
  response_status : Z;
  response_text : result string
}.

(** Everything outside the program, fixed for a run: the two libraries,
    the source table, the network, and the database server.  The server
    accepts or refuses a row for what the row holds (column types and
    lengths); the table has no uniqueness constraint. *)
Record world : Type := World {
  next_data_html : string -> option string;
  JSON_parse : string -> option value;
  sql_connect : result unit;
  select_error : option error;
  tblTalentIMDBResume : list talent;
  fetch : string -> result response;
  insert_error : metadata -> option error;
  pool_close : result unit
}.

(** What the program changes: the output table and the console. *)
Record state : Type := State {
  tblImdbMetaData : list metadata;
  console : list (message credit)
}.

(** A computation that reads and writes the state and may throw.  What it
    wrote before throwing stays written. *)
Definition M (A : Type) : Type := state -> state * result A.

Definition ret {A} (a : A) : M A := fun s => (s, ok a).

Definition raise {A} (e : error) : M A := fun s => (s, throw e).

Definition bind {A B} (m : M A) (k : A -> M B) : M B :=
  fun s =>
    match m s with
    | (s', inl e) => (s', inl e)
    | (s', inr a) => k a s'
    end.

Declare Scope driver_scope.
Delimit Scope driver_scope with driver.
Notation "x <- m ;; k" := (bind m (fun x => k))
  (at level 61, m at next level, right associativity) : driver_scope.
Notation "m ;; k" := (bind m (fun _ => k))
  (at level 61, right associativity) : driver_scope.
Local Open Scope driver_scope.

(** [try { body } catch (err) { handler }] *)
Definition try_catch {A} (body : M A) (handler : error -> M A) : M A :=
  fun s =>
    match body s with
    | (s', inl e) => handler e s'
    | (s', inr a) => (s', inr a)
    end.

(** [try { body } finally { cleanup }]: the cleanup runs on both paths, and
    an exception of the cleanup replaces the outcome of the body. *)
Definition try_finally {A} (body : M A) (cleanup : M unit) : M A :=
  fun s =>
    match body s with
    | (s', r) =>
        match cleanup s' with
        | (s'', inl e) => (s'', inl e)
        | (s'', inr _) => (s'', r)
        end
    end.

(** [for (const x of xs) { body }] *)
Fixpoint for_of {A} (xs : list A) (body : A -> M unit) : M unit :=
  match xs with
  | [] => ret tt
  | x :: rest => body x ;; for_of rest body
  end.

Definition lift {A} (r : result A) : M A := fun s => (s, r).

Definition console_write (m : message credit) : M unit :=
  fun s => (State (tblImdbMetaData s) (console s ++ [m]), ok tt).

Definition console_write_all (ms : list (message credit)) : M unit :=
  fun s => (State (tblImdbMetaData s) (console s ++ ms), ok tt).

(** [TalentID NOT IN (SELECT DISTINCT TalentId FROM tblImdbMetaData)], on
    key columns that hold integers and no [NULL]. *)
Definition has_metadata (t : list metadata) (id : Z) : bool :=
  existsb (fun m => (TalentId m =? id)%Z) t.

Definition pending (source : list talent) (t : list metadata) : list talent :=
  filter (fun r => negb (has_metadata t (TalentID r))) source.

Section Run.

Variable w : world.

(** The query of lines 31 to 37. *)
Definition select_pending : M (list talent) :=
  fun s =>
    match select_error w with
    | Some e => (s, throw e)
    | None => (s, ok (pending (tblTalentIMDBResume w) (tblImdbMetaData s)))
    end.

(** The [INSERT] of lines 58 to 71. *)
Definition insert (TalentID : Z) (c : credit) : M unit :=
  fun s =>
    match insert_error w (Metadata TalentID c) with
    | Some e => (s, throw e)
    | None =>
        (State (tblImdbMetaData s ++ [Metadata TalentID c]) (console s),
         ok tt)
    end.

Definition fetchImdbPage (imdbId : string) : M string :=
  let url := "https://www.imdb.com/name/" +++ imdbId +++ "/" in
  response <- lift (fetch w url) ;;
  if negb (response_ok response)
  then raise (FetchError (response_status response))
  else lift (response_text response).

(** [extractFilmographyFromHtml] with its console lines written. *)
Definition extractFilmography (pageHtml : string) : M (list credit) :=
  let (lines, r) :=
    extractFilmographyFromHtml (next_data_html w) (JSON_parse w) pageHtml in
  console_write_all lines ;; lift r.

(** The [try] block of the loop over [rows], lines 45 to 72;
    [continue] ends it without an exception. *)
Definition row_body (TalentID : Z) (IMDBLink : option string) : M unit :=
  let imdbId := extractImdbId IMDBLink in
  console_write (MsgProcessing TalentID imdbId) ;;
  match imdbId with
  | None => console_write (MsgNoValidId TalentID)
  | Some imdbId =>
      pageHtml <- fetchImdbPage imdbId ;;
      credits <- extractFilmography pageHtml ;;
      console_write (MsgFound (List.length credits) TalentID) ;;
      for_of credits (fun credit =>
        console_write (MsgInserting credit) ;;
        insert TalentID credit)
  end.

(** The body of the loop over [rows], lines 42 to 77. *)
Definition process_row (row : talent) : M unit :=
  let TalentID := TalentID row in
  let IMDBLink := IMDBLink row in
  try_catch
    (row_body TalentID IMDBLink)
    (fun err => console_write (MsgTalentError TalentID err)).

(** Lines 26 to 84.  [pool] is set once [sql.connect] has resolved, and
    only then does the [finally] block close it. *)
Definition processAllExistingImdbLinks : M unit :=
  fun s =>
    match sql_connect w with
    | inl err => console_write (MsgDatabaseError err) s
    | inr _ =>
        try_finally
          (try_catch
             (rows <- select_pending ;;
              for_of rows process_row)
             (fun err => console_write (MsgDatabaseError err)))
          (lift (pool_close w)) s
    end.

(** The async function called at the end of the file: the final state
    and the status given to [process.exit]. *)
Definition main (s : state) : state * Z :=
  match processAllExistingImdbLinks s with
  | (s', inr _) =>
      (fst (console_write MsgFinished s'), 0%Z)
  | (s', inl err) =>
      (fst (console_write (MsgUnexpected err) s'), 1%Z)
  end.

End Run.

End Driver.

(** * Properties *)

(** ** The identifier extractor *)

Fixpoint all_digits (s : string) : bool :=
  match s with
  | "" => true
  | String c rest => is_digit c && all_digits rest
  end.

Definition is_letter (c : ascii) : bool :=
  (((65 <=? nat_of_ascii c) && (nat_of_ascii c <=? 90))
   || ((97 <=? nat_of_ascii c) && (nat_of_ascii c <=? 122)))%nat.

Fixpoint all_letters (s : string) : bool :=
  match s with
  | "" => true
  | String c rest => is_letter c && all_letters rest
  end.

Definition starts_with_digit (s : string) : bool :=
  match s with
  | "" => false
  | String c _ => is_digit c
  end.

(** The pattern in the words of the specification: ["/name/<TOKEN>/"] with
    the token a letter prefix followed by digits, somewhere in [s]. *)
Definition contains_name_token_slash (s : string) : Prop :=
  exists pre letters digits post,
    s = pre +++ "/name/" +++ letters +++ digits +++ "/" +++ post /\
    letters <> "" /\ all_letters letters = true /\
    digits <> "" /\ all_digits digits = true.

(** What the regular expression looks for: ["/name/nm"] and a digit. *)
Definition contains_name_nm_digit (s : string) : Prop :=
  exists pre c post,
    s = pre +++ "/name/nm" +++ String c post /\ is_digit c = true.

Fixpoint count_slash (s : string) : nat :=
  match s with
  | "" => 0
  | String c rest => (if Ascii.eqb c "/" then 1 else 0) + count_slash rest
  end.

Lemma count_slash_app (a b : string) :
  count_slash (a +++ b) = count_slash a + count_slash b.
Proof.
  induction a as [| c a IH]; simpl; [reflexivity | rewrite IH; lia].
Qed.

Lemma strip_prefix_app (p s rest : string) :
  strip_prefix p s = Some rest -> s = p +++ rest.
Proof.
  revert s; induction p as [| a p IH]; intros s H.
  - destruct s; simpl in H; now inversion H.
  - destruct s as [| b s]; simpl in H; [discriminate |].
    destruct (Ascii.eqb_spec a b) as [-> | _]; [| discriminate].
    simpl. now rewrite (IH s H).
Qed.

Lemma strip_prefix_complete (p rest : string) :
  strip_prefix p (p +++ rest) = Some rest.
Proof.
  induction p as [| a p IH]; simpl.
  - now destruct rest.
  - now rewrite Ascii.eqb_refl.
Qed.

Lemma take_digits_split (s : string) :
  exists post,
    s = take_digits s +++ post /\
    all_digits (take_digits s) = true /\
    starts_with_digit post = false.
Proof.
  induction s as [| c s [post (E & D & P)]]; simpl.
  - exists ""; auto.
  - destruct (is_digit c) eqn:Hc.
    + exists post; simpl. rewrite Hc, D. repeat split; auto.
      now rewrite <- E.
    + exists (String c s); simpl. auto.
Qed.

Lemma match_here_sound (s tok : string) :
  match_here s = Some tok ->
  exists ds post,
    s = "/name/nm" +++ ds +++ post /\ ds <> "" /\ all_digits ds = true /\
    tok = "nm" +++ ds /\ starts_with_digit post = false.
Proof.
  unfold match_here. intros H.
  destruct (strip_prefix "/name/nm" s) as [rest |] eqn:Hp; [| discriminate].
  apply strip_prefix_app in Hp.
  destruct (take_digits_split rest) as (post & E & D & P).
  destruct (take_digits rest) as [| d ds] eqn:Ht; [discriminate |].
  inversion H; subst tok; clear H.
  exists (String d ds), post. repeat split; auto; try discriminate.
  now rewrite Hp, E at 1.
Qed.

Lemma match_here_complete (c : ascii) (post : string) :
  is_digit c = true ->
  match_here ("/name/nm" +++ String c post) <> None.
Proof.
  intros Hc. unfold match_here.
  rewrite strip_prefix_complete. simpl. now rewrite Hc.
Qed.

Lemma regex_search_sound (s tok : string) :
  regex_search s = Some tok ->
  exists pre ds post,
    s = pre +++ "/name/nm" +++ ds +++ post /\ ds <> "" /\
    all_digits ds = true /\ tok = "nm" +++ ds /\
    starts_with_digit post = false.
Proof.
  induction s as [| c s IH]; intros H.
  - simpl in H. discriminate.
  - cbn [regex_search] in H.
    destruct (match_here (String c s)) as [m |] eqn:Hm.
    + inversion H; subst m.
      destruct (match_here_sound _ _ Hm) as (ds & post & E & R).
      exists "", ds, post. now split.
    + destruct (IH H) as (pre & ds & post & E & R).
      exists (String c pre), ds, post. split; [| exact R].
      simpl. now rewrite E.
Qed.

Lemma regex_search_complete (pre : string) (c : ascii) (post : string) :
  is_digit c = true ->
  regex_search (pre +++ "/name/nm" +++ String c post) <> None.
Proof.
  intros Hc. induction pre as [| a pre IH].
  - pose proof (match_here_complete c post Hc) as Hm.
    change ("" +++ "/name/nm" +++ String c post)
      with ("/name/nm" +++ String c post).
    destruct (match_here ("/name/nm" +++ String c post)) as [m |] eqn:E;
      [| contradiction].
    change ("/name/nm" +++ String c post)
      with (String "/" ("name/nm" +++ String c post)) in *.
    cbn [regex_search]. rewrite E. discriminate.
  - change (String a pre +++ "/name/nm" +++ String c post)
      with (String a (pre +++ "/name/nm" +++ String c post)).
    cbn [regex_search].
    destruct (match_here _); [discriminate | exact IH].
Qed.

Lemma extractImdbId_regex (s : string) :
  extractImdbId (Some s) = regex_search s.
Proof.
  unfold extractImdbId. destruct s; reflexivity.
Qed.

(** C5, as stated, fails: the trailing slash is optional in the regular
    expression, so a link that ends right after the digits gives an
    identifier although it does not contain ["/name/<TOKEN>/"]. *)
Lemma extractImdbId_without_trailing_slash :
  extractImdbId (Some "/name/nm0000123") = Some "nm0000123" /\
  ~ contains_name_token_slash "/name/nm0000123".
Proof.
  split; [reflexivity |].
  intros (pre & letters & digits & post & E & _).
  apply (f_equal count_slash) in E.
  rewrite !count_slash_app in E. simpl in E. lia.
Qed.

(** C5, amended: [extractImdbId] is total on [null] and on every string;
    it returns an identifier exactly when the string contains ["/name/nm"]
    followed by a digit, with or without a slash after the digits; the
    identifier is ["nm"] and the whole run of digits of such an occurrence;
    [null] and the empty string give [null]. *)
Theorem extractImdbId_spec :
  extractImdbId None = None /\
  extractImdbId (Some "") = None /\
  (forall s, extractImdbId (Some s) = None <-> ~ contains_name_nm_digit s) /\
  (forall s tok,
     extractImdbId (Some s) = Some tok ->
     exists pre ds post,
       s = pre +++ "/name/nm" +++ ds +++ post /\ ds <> "" /\
       all_digits ds = true /\ tok = "nm" +++ ds /\
       starts_with_digit post = false).
Proof.
  repeat split.
  - intros H (pre & c & post & E & Hc). subst s.
    rewrite extractImdbId_regex in H.
    now apply (regex_search_complete pre c post Hc).
  - intros H. rewrite extractImdbId_regex.
    destruct (regex_search s) as [tok |] eqn:E; [| reflexivity].
    exfalso. apply H.
    destruct (regex_search_sound _ _ E) as (pre & ds & post & Es & Hne & D & _).
    destruct ds as [| c ds]; [congruence |].
    simpl in D. apply andb_prop in D as [Hc _].
    exists pre, c, (ds +++ post). now split.
  - intros s tok H. rewrite extractImdbId_regex in H.
    now apply regex_search_sound.
Qed.

(** ** The normalizer *)

(** Builders for decoded payloads. *)
Definition obj1 (k : string) (v : value) : value := VObj [(k, v)].

Definition group (edges : value) : value :=
  obj1 "credits" (obj1 "edges" edges).

Definition payload (released unreleased : value) : value :=
  obj1 "props" (obj1 "pageProps" (obj1 "mainColumnData"
    (VObj [("releasedPrimaryCredits", released);
           ("unreleasedPrimaryCredits", unreleased)]))).

(** An edge whose node holds a title text and nothing else. *)
Definition edge_show_x : value :=
  obj1 "node" (obj1 "title" (obj1 "titleText" (obj1 "text" (VStr "Show X")))).

(** Two payloads with the same first released group: the second has one
    more released group and an unreleased one. *)
Definition payload_one_group : value :=
  payload (VArr [group (VArr [edge_show_x])]) (VArr []).

Definition payload_more_groups : value :=
  payload (VArr [group (VArr [edge_show_x]); group (VArr [edge_show_x])])
          (VArr [group (VArr [edge_show_x])]).

Definition double_quote : string := String (ascii_of_nat 34) "".

(** The JSON text of a value whose strings need no escape. *)
Fixpoint encode (v : value) : string :=
  match v with
  | VUndefined | VNull => "null"
  | VBool true => "true"
  | VBool false => "false"
  | VNum n => Number_toString n
  | VStr s => double_quote +++ s +++ double_quote
  | VArr xs =>
      "[" +++
      (fix items (l : list value) : string :=
         match l with
         | [] => ""
         | [x] => encode x
         | x :: rest => encode x +++ "," +++ items rest
         end) xs
      +++ "]"
  | VObj props =>
      "{" +++
      (fix members (l : list (string * value)) : string :=
         match l with
         | [] => ""
         | [(k, x)] => double_quote +++ k +++ double_quote +++ ":" +++ encode x
         | (k, x) :: rest =>
             double_quote +++ k +++ double_quote +++ ":" +++ encode x
             +++ "," +++ members rest
         end) props
      +++ "}"
  end.

(** Stand-ins for the two libraries on the pages of the examples.  A page
    is its script when it opens with the script tag; the decoder knows the
    JSON text of the two payloads above. *)
Definition stub_next_data_html (html : string) : option string :=
  strip_prefix "<script id=__NEXT_DATA__ type=application/json>" html.

Definition stub_JSON_parse (script : string) : option value :=
  if script =? encode payload_one_group then Some payload_one_group
  else if script =? encode payload_more_groups then Some payload_more_groups
  else None.

Definition page_of (script : string) : string :=
  "<script id=__NEXT_DATA__ type=application/json>" +++ script.

Lemma mapR_ok {A B} (f : A -> result B) (xs : list A) (ys : list B) :
  mapR f xs = ok ys -> Forall2 (fun x y => f x = ok y) xs ys.
Proof.
  revert ys; induction xs as [| x xs IH]; intros ys H; simpl in H.
  - inversion H. constructor.
  - destruct (f x) as [e | y] eqn:Hx; simpl in H; [discriminate |].
    destruct (mapR f xs) as [e | ys'] eqn:Hxs; simpl in H; [discriminate |].
    inversion H; subst ys. constructor; [exact Hx | now apply IH].
Qed.

Lemma mapR_total {A B} (f : A -> result B) (xs : list A) :
  Forall (fun x => exists y, f x = ok y) xs ->
  exists ys, mapR f xs = ok ys.
Proof.
  induction 1 as [| x xs [y Hx] _ [ys Hxs]]; simpl.
  - now exists [].
  - rewrite Hx, Hxs. now exists (y :: ys).
Qed.

Lemma mapR_throws {A B} (f : A -> result B) (xs : list A) (e : error) :
  mapR f xs = throw e -> exists x, In x xs /\ f x = throw e.
Proof.
  induction xs as [| x xs IH]; simpl; intros H; [discriminate |].
  destruct (f x) as [e' | y] eqn:Hx; simpl in H.
  - inversion H; subst e'. exists x. auto.
  - destruct (mapR f xs) as [e' | ys] eqn:Hxs; simpl in H; [| discriminate].
    inversion H; subst e'. destruct (IH eq_refl) as (x' & Hin & Hf).
    exists x'. auto.
Qed.

(** *** C7 *)

(** C7: an edge whose node holds only [title.titleText.text = "Show X"]
    gives the record with that title, empty strings for [titleUrl],
    [fromYear], [type], [role] and [currentProductionStage], [null] for
    [toYear] and [0] for [noOfEpisodes]. *)
Theorem edge_credit_title_only :
  Index.edge_credit
    (obj1 "node" (obj1 "title" (obj1 "titleText" (obj1 "text" (VStr "Show X")))))
  = ok {| Index.title := VStr "Show X";
          Index.titleUrl := VStr "";
          Index.fromYear := VStr "";
          Index.toYear := VNull;
          Index.noOfEpisodes := VNum 0;
          Index.type := VStr "";
          Index.role := VStr "";
          Index.currentProductionStage := VStr "" |}.
Proof. reflexivity. Qed.

(** The end-to-end case of the specification, at the level of one edge. *)
Example edge_credit_movie_a :
  Index.edge_credit
    (obj1 "node"
       (VObj [("title",
               VObj [("titleText", obj1 "text" (VStr "Movie A"));
                     ("id", VStr "tt9999");
                     ("releaseYear", obj1 "year" (VNum 2020));
                     ("titleType", obj1 "text" (VStr "Movie"))]);
              ("characters", VArr [obj1 "name" (VStr "Hero")])]))
  = ok {| Index.title := VStr "Movie A";
          Index.titleUrl := VStr "https://www.imdb.com/title/tt9999/";
          Index.fromYear := VStr "2020";
          Index.toYear := VNull;
          Index.noOfEpisodes := VNum 0;
          Index.type := VStr "Movie";
          Index.role := VStr "Hero";
          Index.currentProductionStage := VStr "" |}.
Proof. reflexivity. Qed.

(** *** C1 *)

(** An edge whose [episodeCredits.yearRange] is an object without [year]. *)
Definition edge_year_range_without_year : value :=
  obj1 "node" (obj1 "episodeCredits" (obj1 "yearRange" (VObj []))).

(** An edge whose [title.releaseYear] is an object without [year]. *)
Definition edge_release_year_without_year : value :=
  obj1 "node" (obj1 "title" (obj1 "releaseYear" (VObj []))).

(** C1 fails on [src/index.js]: [.year.toString()] on line 142 has no [?.]
    before [toString], so a [yearRange] or a [releaseYear] without [year]
    throws a [TypeError], for the edge and for the whole document.  The
    older version, which writes [year?.toString()], and line 143, which
    writes [endYear?.toString()], default the same field without throwing. *)
Theorem edge_credit_missing_year_throws :
  Index.edge_credit edge_year_range_without_year = throw TypeError /\
  Index.edge_credit edge_release_year_without_year = throw TypeError /\
  Index.credits_of_json
    (payload (VArr [group (VArr [edge_year_range_without_year])]) (VArr []))
  = ([], throw TypeError) /\
  Part000.edge_credit edge_release_year_without_year
  = ok {| Part000.title := VStr "";
          Part000.titleUrl := VStr "";
          Part000.year := VStr "";
          Part000.type := VStr "";
          Part000.role := VStr "" |} /\
  Index.toYear_of (obj1 "episodeCredits" (obj1 "yearRange" (VObj [])))
  = ok VNull.
Proof. repeat split; reflexivity. Qed.

(** *** C6 *)

(** C6: when the page has no [__NEXT_DATA__] block, or has one that
    [JSON.parse] rejects, the normalizer returns the empty list, writes one
    line with [console.error], and does not throw.  Both versions. *)
Theorem extractFilmographyFromHtml_malformed
    (next_data_html : string -> option string)
    (JSON_parse : string -> option value) (html : string) :
  (next_data_html html = None \/
   exists script, next_data_html html = Some script /\
                  JSON_parse script = None) ->
  (exists m,
     Index.extractFilmographyFromHtml next_data_html JSON_parse html
     = ([m], ok []) /\
     (m = MsgNextDataNotFound \/ m = MsgParseFailed) /\
     message_level m = LError) /\
  (exists m,
     Part000.extractFilmographyFromHtml next_data_html JSON_parse html
     = ([m], ok []) /\
     (m = MsgNextDataNotFound \/ m = MsgParseFailed) /\
     message_level m = LError).
Proof.
  unfold Index.extractFilmographyFromHtml, Part000.extractFilmographyFromHtml.
  intros [H | (script & H & Hp)]; rewrite H.
  - split; exists MsgNextDataNotFound; auto.
  - destruct (script =? "").
    + split; exists MsgNextDataNotFound; auto.
    + rewrite Hp. split; exists MsgParseFailed; auto.
Qed.

Lemma extractFilmographyFromHtml_malformed_witness :
  (exists m,
     Index.extractFilmographyFromHtml stub_next_data_html stub_JSON_parse
       (page_of "{oops")
     = ([m], ok []) /\
     (m = MsgNextDataNotFound \/ m = MsgParseFailed) /\
     message_level m = LError) /\
  (exists m,
     Part000.extractFilmographyFromHtml stub_next_data_html stub_JSON_parse
       (page_of "{oops")
     = ([m], ok []) /\
     (m = MsgNextDataNotFound \/ m = MsgParseFailed) /\
     message_level m = LError).
Proof.
  apply (extractFilmographyFromHtml_malformed stub_next_data_html
           stub_JSON_parse (page_of "{oops")).
  right. exists "{oops". split; reflexivity.
Defined.

(** *** C3 *)

(** The edges of a list of credit groups, each group holding an array at
    [credits.edges]. *)
Definition groups_hold (groups : list value) (edges : list (list value)) : Prop :=
  Forall2 (fun g es => g?."credits"?."edges" = VArr es) groups edges.

Lemma flatMap_groups (groups : list value) (edges : list (list value)) :
  groups_hold groups edges ->
  flatMap (fun credit => credit?."credits"?."edges" ||| VArr []) groups
  = List.concat edges.
Proof.
  unfold flatMap.
  induction 1 as [| g es groups edges Hg _ IH]; simpl; [reflexivity |].
  now rewrite Hg, IH.
Qed.

Lemma flatMap_app (f : value -> value) (xs ys : list value) :
  flatMap f (xs ++ ys) = flatMap f xs ++ flatMap f ys.
Proof. unfold flatMap. apply flat_map_app. Qed.

(** Lines 125 to 135 do what the specification says: with both containers
    present as arrays of groups, the edges are those of the released groups
    followed by those of the unreleased groups, in source order, and the
    outcome of the normalizer is the outcome of the loop over them. *)
Lemma credits_of_json_both_containers
    (imdbJson : value) (rs us : list value) (rel unrel : list (list value)) :
  (mainColumnData imdbJson)?."releasedPrimaryCredits" = VArr rs ->
  (mainColumnData imdbJson)?."unreleasedPrimaryCredits" = VArr us ->
  groups_hold rs rel ->
  groups_hold us unrel ->
  Index.collect_edges imdbJson = ok (VArr (List.concat rel ++ List.concat unrel)) /\
  Index.credits_of_json imdbJson
  = ([], mapR Index.edge_credit (List.concat rel ++ List.concat unrel)).
Proof.
  intros Hr Hu Hrel Hunrel.
  assert (E : Index.collect_edges imdbJson
              = ok (VArr (List.concat rel ++ List.concat unrel))).
  { unfold Index.collect_edges. rewrite Hr, Hu. simpl.
    now rewrite flatMap_app, (flatMap_groups _ _ Hrel), (flatMap_groups _ _ Hunrel). }
  split; [exact E |].
  unfold Index.credits_of_json. now rewrite E.
Qed.

(** When every edge gives a record, the records are as many as the edges
    and in their order. *)
Lemma credits_of_json_both_containers_ok
    (imdbJson : value) (rs us : list value) (rel unrel : list (list value)) :
  (mainColumnData imdbJson)?."releasedPrimaryCredits" = VArr rs ->
  (mainColumnData imdbJson)?."unreleasedPrimaryCredits" = VArr us ->
  groups_hold rs rel ->
  groups_hold us unrel ->
  Forall (fun edge => exists c, Index.edge_credit edge = ok c)
    (List.concat rel ++ List.concat unrel) ->
  exists credits,
    Index.credits_of_json imdbJson = ([], ok credits) /\
    List.length credits
    = (List.length (List.concat rel) + List.length (List.concat unrel))%nat /\
    Forall2 (fun edge c => Index.edge_credit edge = ok c)
      (List.concat rel ++ List.concat unrel) credits.
Proof.
  intros Hr Hu Hrel Hunrel Hall.
  destruct (credits_of_json_both_containers imdbJson _ _ _ _ Hr Hu Hrel Hunrel)
    as [_ E].
  destruct (mapR_total Index.edge_credit _ Hall) as [credits Hm].
  exists credits. rewrite E, Hm. split; [reflexivity |].
  pose proof (mapR_ok _ _ _ Hm) as F. split; [| exact F].
  rewrite <- (Forall2_length F). apply length_app.
Qed.

(** A payload with both containers: one released edge, whose [yearRange]
    has no [year], and one unreleased edge. *)
Definition payload_both_containers : value :=
  payload
    (VArr [group (VArr [edge_year_range_without_year])])
    (VArr [group (VArr [obj1 "node" (obj1 "title"
                          (obj1 "titleText" (obj1 "text" (VStr "Show X"))))])]).

(** C3 fails on the code at such a payload: the two containers hold two
    edges, the edges are collected in the stated order, and the loop then
    throws on the first, so no sequence comes out.  The cause is the
    missing [?.] of line 142, as for C1. *)
Theorem credits_of_json_both_containers_throws :
  Index.collect_edges payload_both_containers
  = ok (VArr [edge_year_range_without_year;
              obj1 "node" (obj1 "title"
                (obj1 "titleText" (obj1 "text" (VStr "Show X"))))]) /\
  Index.credits_of_json payload_both_containers = ([], throw TypeError).
Proof. split; reflexivity. Qed.

(** *** C8 *)

Lemma toString_is_string (v v' : value) :
  toString v = ok v' -> exists s, v' = VStr s.
Proof.
  unfold toString. destruct (nullish v); [discriminate |].
  destruct (ToString v) as [e | s]; simpl; [discriminate |].
  intros H. inversion H. now exists s.
Qed.

Lemma truthy_VStr (s : string) : truthy (VStr s) = true <-> s <> "".
Proof.
  simpl. destruct (String.eqb_spec s ""); simpl; split; congruence.
Qed.

Lemma episode_year_eq (node : value) :
  Index.episode_year node
  = let yr := node?."episodeCredits"?."yearRange" in
    if nullish yr then ok VUndefined else toString (get yr "year").
Proof.
  unfold Index.episode_year, chain, oget.
  destruct (nullish node); [reflexivity |].
  destruct (nullish (get node "episodeCredits")); reflexivity.
Qed.

Lemma release_year_eq (node : value) :
  Index.release_year node
  = let ry := node?."title"?."releaseYear" in
    if nullish ry then ok VUndefined else toString (get ry "year").
Proof.
  unfold Index.release_year, chain, oget.
  destruct (nullish node); [reflexivity |].
  destruct (nullish (get node "title")); reflexivity.
Qed.

(** The rule for the two year fields in the words of the specification; a
    field is present when the lookup finds a value that is neither
    [undefined] nor [null]. *)
Definition present (v : value) : bool := negb (nullish v).

Definition years_as_stated (node : value) (c : Index.credit) : Prop :=
  let y := node?."episodeCredits"?."yearRange"?."year" in
  let r := node?."title"?."releaseYear"?."year" in
  let e := node?."episodeCredits"?."yearRange"?."endYear" in
  (if present y then toString y = ok (Index.fromYear c)
   else if present r then toString r = ok (Index.fromYear c)
   else Index.fromYear c = VStr "") /\
  (exists s, Index.fromYear c = VStr s) /\
  (if present e then toString e = ok (Index.toYear c)
   else Index.toYear c = VNull).

(** An edge whose episode range has the empty string for both years, and
    whose title has a release year. *)
Definition edge_empty_years : value :=
  obj1 "node"
    (VObj [("episodeCredits",
            obj1 "yearRange" (VObj [("year", VStr ""); ("endYear", VStr "")]));
           ("title", obj1 "releaseYear" (obj1 "year" (VNum 2019)))]).

(** C8, as stated, fails: [||] takes an empty string for a missing value,
    so an episode-range year that is present and empty gives way to the
    release year, and an [endYear] that is present and empty becomes [null]. *)
Lemma edge_empty_years_not_as_stated :
  exists c,
    Index.edge_credit edge_empty_years = ok c /\
    Index.fromYear c = VStr "2019" /\
    Index.toYear c = VNull /\
    ~ years_as_stated edge_empty_years?."node" c.
Proof.
  eexists. split; [reflexivity |]. split; [reflexivity |].
  split; [reflexivity |].
  intros (H & _). cbn in H. discriminate.
Qed.

(** C8, amended: [fromYear] is the episode-range year as a string when the
    year range has a year whose string is not empty; otherwise, when the
    year range is missing or its year is the empty string, it is the release
    year as a string, or the empty string when there is no release-year
    object; it is a string whenever the expression gives a value.  [toYear]
    is the episode-range [endYear] as a string when that string is not
    empty, and [null], which is not the empty string, when [endYear] is
    missing or gives the empty string.  The record of an edge carries these
    two values. *)
Theorem year_fields_spec (node : value) :
  let yr := node?."episodeCredits"?."yearRange" in
  let ry := node?."title"?."releaseYear" in
  let e := yr?."endYear" in
  (forall s,
     nullish yr = false -> toString (get yr "year") = ok (VStr s) ->
     s <> "" ->
     Index.fromYear_of node = ok (VStr s)) /\
  (forall s,
     nullish yr = true \/ toString (get yr "year") = ok (VStr "") ->
     nullish ry = false -> toString (get ry "year") = ok (VStr s) ->
     Index.fromYear_of node = ok (VStr s)) /\
  (nullish yr = true \/ toString (get yr "year") = ok (VStr "") ->
   nullish ry = true ->
   Index.fromYear_of node = ok (VStr "")) /\
  (forall v, Index.fromYear_of node = ok v -> exists s, v = VStr s) /\
  (forall s,
     toString e = ok (VStr s) -> s <> "" ->
     Index.toYear_of node = ok (VStr s)) /\
  (nullish e = true \/ toString e = ok (VStr "") ->
   Index.toYear_of node = ok VNull) /\
  VNull <> VStr "" /\
  (forall edge c,
     edge?."node" = node -> Index.edge_credit edge = ok c ->
     Index.fromYear_of node = ok (Index.fromYear c) /\
     Index.toYear_of node = ok (Index.toYear c)).
Proof.
  intros yr ry e.
  assert (Hfalsy : nullish yr = true \/ toString (get yr "year") = ok (VStr "") ->
                   exists a, Index.episode_year node = ok a /\ truthy a = false).
  { rewrite episode_year_eq. fold yr. cbv zeta.
    intros [H | H].
    - rewrite H. now exists VUndefined.
    - destruct (nullish yr); [now exists VUndefined |].
      rewrite H. now exists (VStr ""). }
  repeat split.
  - intros s Hn Hs Hne. unfold Index.fromYear_of.
    rewrite episode_year_eq. fold yr. cbv zeta. rewrite Hn, Hs. simpl.
    apply truthy_VStr in Hne. simpl in Hne. now rewrite Hne.
  - intros s Hy Hn Hs. unfold Index.fromYear_of.
    destruct (Hfalsy Hy) as (a & -> & Ha). simpl. rewrite Ha.
    rewrite release_year_eq. fold ry. cbv zeta. rewrite Hn, Hs. simpl.
    unfold or_else. simpl. now destruct (s =? "") eqn:E;
      [apply String.eqb_eq in E; subst |].
  - intros Hy Hn. unfold Index.fromYear_of.
    destruct (Hfalsy Hy) as (a & -> & Ha). simpl. rewrite Ha.
    rewrite release_year_eq. fold ry. cbv zeta. now rewrite Hn.
  - intros v. unfold Index.fromYear_of.
    destruct (Index.episode_year node) as [err | a] eqn:Ha; simpl;
      [discriminate |].
    destruct (truthy a) eqn:Ht.
    + intros H; inversion H; subst v.
      rewrite episode_year_eq in Ha. cbv zeta in Ha.
      destruct (nullish _) in Ha.
      * inversion Ha; subst a. discriminate.
      * now apply toString_is_string in Ha.
    + destruct (Index.release_year node) as [err | b] eqn:Hb; simpl;
        [discriminate |].
      intros H; inversion H; subst v. unfold or_else.
      destruct (truthy b) eqn:Htb; [| now exists ""].
      rewrite release_year_eq in Hb. cbv zeta in Hb.
      destruct (nullish _) in Hb.
      * inversion Hb; subst b. discriminate.
      * now apply toString_is_string in Hb.
  - intros s Hs Hne. unfold Index.toYear_of, otoString, chain.
    change (node?."episodeCredits"?."yearRange"?."endYear") with e.
    destruct (nullish e) eqn:Hn.
    + unfold toString in Hs. rewrite Hn in Hs. discriminate.
    + rewrite Hs. simpl. unfold or_else.
      apply truthy_VStr in Hne. now rewrite Hne.
  - intros He. unfold Index.toYear_of, otoString, chain.
    change (node?."episodeCredits"?."yearRange"?."endYear") with e.
    destruct (nullish e) eqn:Hn; [reflexivity |].
    destruct He as [He | He]; [discriminate |]. now rewrite He.
  - discriminate.
  - unfold Index.edge_credit in H0. rewrite H in H0.
    destruct (if truthy _ then _ else _) as [err | u]; simpl in H0;
      [discriminate |].
    destruct (Index.fromYear_of node) as [err | f]; simpl in H0;
      [discriminate |].
    destruct (Index.toYear_of node) as [err | t]; simpl in H0;
      [discriminate |].
    now inversion H0.
  - unfold Index.edge_credit in H0. rewrite H in H0.
    destruct (if truthy _ then _ else _) as [err | u]; simpl in H0;
      [discriminate |].
    destruct (Index.fromYear_of node) as [err | f]; simpl in H0;
      [discriminate |].
    destruct (Index.toYear_of node) as [err | t]; simpl in H0;
      [discriminate |].
    now inversion H0.
Qed.

(** *** C10 *)

(** A path into a decoded payload: property names and the index [0], every
    step tolerant of a missing value. *)
Inductive step : Type :=
| Field (k : string)
| First.

Fixpoint lookup (v : value) (path : list step) : value :=
  match path with
  | [] => v
  | Field k :: rest => lookup v?.k rest
  | First :: rest => lookup (oget0 v) rest
  end.

(** [props.pageProps.mainColumnData.releasedPrimaryCredits[0].credits.edges] *)
Definition first_released_edges : list step :=
  [Field "props"; Field "pageProps"; Field "mainColumnData";
   Field "releasedPrimaryCredits"; First; Field "credits"; Field "edges"].

Lemma first_group_edges_lookup (imdbJson : value) :
  Part000.first_group_edges imdbJson = lookup imdbJson first_released_edges.
Proof. reflexivity. Qed.

Lemma part000_credits_of_json_agree (j1 j2 : value) :
  lookup j1 first_released_edges = lookup j2 first_released_edges ->
  Part000.credits_of_json j1 = Part000.credits_of_json j2.
Proof.
  intros H. unfold Part000.credits_of_json.
  now rewrite !first_group_edges_lookup, H.
Qed.

(** C10: with [JSON.parse] rejecting the empty string, two pages whose
    blocks decode to payloads with the same value at
    [props.pageProps.mainColumnData.releasedPrimaryCredits[0].credits.edges]
    get the same outcome, console lines included, from the older
    [extractFilmographyFromHtml]; so the later released groups and the
    unreleased container change nothing.  The version of [src/index.js]
    tells such payloads apart. *)
Theorem part000_depends_on_first_group_only :
  (forall (next_data_html : string -> option string)
          (JSON_parse : string -> option value)
          (html1 html2 script1 script2 : string) (j1 j2 : value),
     JSON_parse "" = None ->
     next_data_html html1 = Some script1 -> JSON_parse script1 = Some j1 ->
     next_data_html html2 = Some script2 -> JSON_parse script2 = Some j2 ->
     lookup j1 first_released_edges = lookup j2 first_released_edges ->
     Part000.extractFilmographyFromHtml next_data_html JSON_parse html1
     = Part000.extractFilmographyFromHtml next_data_html JSON_parse html2) /\
  (forall first later1 later2 unreleased1 unreleased2 : _,
     Part000.credits_of_json (payload (VArr (first :: later1)) unreleased1)
     = Part000.credits_of_json (payload (VArr (first :: later2)) unreleased2)) /\
  (lookup payload_one_group first_released_edges
   = lookup payload_more_groups first_released_edges /\
   Part000.credits_of_json payload_one_group
   = Part000.credits_of_json payload_more_groups /\
   Index.credits_of_json payload_one_group
   <> Index.credits_of_json payload_more_groups).
Proof.
  split; [| split].
  - intros ndh jp html1 html2 s1 s2 j1 j2 Hempty H1 P1 H2 P2 Hagree.
    unfold Part000.extractFilmographyFromHtml. rewrite H1, H2.
    destruct (String.eqb_spec s1 "") as [-> | _]; [congruence |].
    destruct (String.eqb_spec s2 "") as [-> | _]; [congruence |].
    rewrite P1, P2. now apply part000_credits_of_json_agree.
  - intros. now apply part000_credits_of_json_agree.
  - split; [reflexivity |]. split; [reflexivity |].
    cbv. discriminate.
Qed.

Lemma part000_depends_on_first_group_only_witness :
  Part000.extractFilmographyFromHtml stub_next_data_html stub_JSON_parse
    (page_of (encode payload_one_group))
  = Part000.extractFilmographyFromHtml stub_next_data_html stub_JSON_parse
      (page_of (encode payload_more_groups)).
Proof.
  apply (proj1 part000_depends_on_first_group_only
           stub_next_data_html stub_JSON_parse
           (page_of (encode payload_one_group))
           (page_of (encode payload_more_groups))
           (encode payload_one_group) (encode payload_more_groups)
           payload_one_group payload_more_groups);
    vm_compute; reflexivity.
Defined.

(** ** The sync driver *)
Module DriverFacts.

Import Index Driver.
Local Open Scope driver_scope.

(** *** Computations that only append rows *)

Section Regular.

Variable P : metadata -> Prop.

(** [m] appends the same rows, all in [P], and has the same outcome,
    whatever the state it starts from. *)
Definition regular {A} (m : M A) : Prop :=
  exists rows r,
    Forall P rows /\
    forall s,
      tblImdbMetaData (fst (m s)) = tblImdbMetaData s ++ rows /\
      snd (m s) = r.

Lemma regular_lift {A} (r : result A) : regular (lift r).
Proof.
  exists [], r. split; [constructor |]. intros s. simpl.
  now rewrite app_nil_r.
Qed.

Lemma regular_ret {A} (a : A) : regular (ret a).
Proof. exact (regular_lift (ok a)). Qed.

Lemma regular_raise {A} (e : error) : regular (@raise A e).
Proof. exact (regular_lift (throw e)). Qed.

Lemma regular_console_write_all (ms : list (message credit)) :
  regular (console_write_all ms).
Proof.
  exists [], (ok tt). split; [constructor |]. intros s. simpl.
  now rewrite app_nil_r.
Qed.

Lemma regular_console_write (m : message credit) :
  regular (console_write m).
Proof. exact (regular_console_write_all [m]). Qed.

Lemma regular_bind {A B} (m : M A) (k : A -> M B) :
  regular m -> (forall a, regular (k a)) -> regular (bind m k).
Proof.
  intros (rows1 & r1 & F1 & H1) Hk. destruct r1 as [e | a].
  - exists rows1, (inl e). split; [exact F1 |]. intros s.
    unfold bind. destruct (H1 s) as [Ht Hr].
    destruct (m s) as [s' r]. simpl in *. subst r. auto.
  - destruct (Hk a) as (rows2 & r2 & F2 & H2).
    exists (rows1 ++ rows2), r2. split; [now apply Forall_app |].
    intros s. unfold bind. destruct (H1 s) as [Ht Hr].
    destruct (m s) as [s' r]. simpl in *. subst r.
    destruct (H2 s') as [Ht' Hr']. split; [| exact Hr'].
    now rewrite Ht', Ht, app_assoc.
Qed.

Lemma regular_try_catch {A} (body : M A) (handler : error -> M A) :
  regular body -> (forall e, regular (handler e)) ->
  regular (try_catch body handler).
Proof.
  intros (rows1 & r1 & F1 & H1) Hh. destruct r1 as [e | a].
  - destruct (Hh e) as (rows2 & r2 & F2 & H2).
    exists (rows1 ++ rows2), r2. split; [now apply Forall_app |].
    intros s. unfold try_catch. destruct (H1 s) as [Ht Hr].
    destruct (body s) as [s' r]. simpl in *. subst r.
    destruct (H2 s') as [Ht' Hr']. split; [| exact Hr'].
    now rewrite Ht', Ht, app_assoc.
  - exists rows1, (inr a). split; [exact F1 |]. intros s.
    unfold try_catch. destruct (H1 s) as [Ht Hr].
    destruct (body s) as [s' r]. simpl in *. subst r. auto.
Qed.

Lemma regular_for_of {A} (xs : list A) (body : A -> M unit) :
  (forall x, regular (body x)) -> regular (for_of xs body).
Proof.
  intros Hb. induction xs as [| x xs IH]; simpl.
  - apply regular_ret.
  - apply regular_bind; [apply Hb | intros _; exact IH].
Qed.

End Regular.

Section Facts.

Variable w : world.

Lemma regular_insert (P : metadata -> Prop) (id : Z) (c : credit) :
  P (Metadata id c) -> regular P (insert w id c).
Proof.
  intros HP. unfold insert.
  destruct (insert_error w (Metadata id c)) as [e |].
  - exists [], (throw e). split; [constructor |]. intros s.
    simpl. now rewrite app_nil_r.
  - exists [Metadata id c], (ok tt). split; [now repeat constructor |].
    intros s. now simpl.
Qed.

Lemma regular_fetchImdbPage (P : metadata -> Prop) (imdbId : string) :
  regular P (fetchImdbPage w imdbId).
Proof.
  unfold fetchImdbPage. apply regular_bind; [apply regular_lift |].
  intros response. destruct (negb (response_ok response)).
  - apply regular_raise.
  - apply regular_lift.
Qed.

Lemma regular_extractFilmography (P : metadata -> Prop) (html : string) :
  regular P (extractFilmography w html).
Proof.
  unfold extractFilmography.
  destruct (extractFilmographyFromHtml _ _ html) as [lines r].
  apply regular_bind; [apply regular_console_write_all |].
  intros _. apply regular_lift.
Qed.

Lemma regular_row_body (id : Z) (link : option string) :
  regular (fun m => TalentId m = id) (row_body w id link).
Proof.
  unfold row_body.
  apply regular_bind; [apply regular_console_write |]. intros _.
  destruct (extractImdbId link) as [imdbId |];
    [| apply regular_console_write].
  apply regular_bind; [apply regular_fetchImdbPage |]. intros pageHtml.
  apply regular_bind; [apply regular_extractFilmography |]. intros credits.
  apply regular_bind; [apply regular_console_write |]. intros _.
  apply regular_for_of. intros credit.
  apply regular_bind; [apply regular_console_write |]. intros _.
  now apply regular_insert.
Qed.

Lemma regular_process_row (row : talent) :
  regular (fun m => TalentId m = TalentID row) (process_row w row).
Proof.
  unfold process_row. apply regular_try_catch.
  - apply regular_row_body.
  - intros e. apply regular_console_write.
Qed.

(** The rows a pending talent adds to the output table. *)
Definition written (row : talent) : list metadata :=
  tblImdbMetaData (fst (process_row w row (State [] []))).

Lemma process_row_table (row : talent) (s : state) :
  tblImdbMetaData (fst (process_row w row s))
  = tblImdbMetaData s ++ written row.
Proof.
  destruct (regular_process_row row) as (rows & r & _ & H).
  unfold written. destruct (H (State [] [])) as [-> _].
  now destruct (H s) as [-> _].
Qed.

Lemma written_TalentId (row : talent) :
  Forall (fun m => TalentId m = TalentID row) (written row).
Proof.
  destruct (regular_process_row row) as (rows & r & F & H).
  unfold written. now destruct (H (State [] [])) as [-> _].
Qed.

(** The [catch] of line 73 ends every iteration without an exception. *)
Lemma process_row_ok (row : talent) (s : state) :
  snd (process_row w row s) = ok tt.
Proof.
  unfold process_row, try_catch.
  destruct (row_body w (TalentID row) (IMDBLink row) s) as [s' [e | []]];
    reflexivity.
Qed.

Lemma for_of_process_row_ok (rows : list talent) (s : state) :
  snd (for_of rows (process_row w) s) = ok tt.
Proof.
  revert s; induction rows as [| row rows IH]; intros s; simpl;
    [reflexivity |].
  unfold bind. pose proof (process_row_ok row s) as H.
  destruct (process_row w row s) as [s' r]. simpl in H. subst r.
  apply IH.
Qed.

Lemma for_of_process_row_step (row : talent) (rows : list talent) (s : state) :
  for_of (row :: rows) (process_row w) s
  = for_of rows (process_row w) (fst (process_row w row s)).
Proof.
  simpl. unfold bind. pose proof (process_row_ok row s) as H.
  destruct (process_row w row s) as [s' r]. simpl in *. now subst r.
Qed.

Lemma for_of_process_row_table (rows : list talent) (s : state) :
  tblImdbMetaData (fst (for_of rows (process_row w) s))
  = tblImdbMetaData s ++ flat_map written rows.
Proof.
  revert s; induction rows as [| row rows IH]; intros s.
  - simpl. now rewrite app_nil_r.
  - rewrite for_of_process_row_step, IH, process_row_table.
    simpl. now rewrite app_assoc.
Qed.

End Facts.

End DriverFacts.


Import Index Driver DriverFacts.
Local Open Scope driver_scope.

Lemma bind_ok {A B} (m : M A) (k : A -> M B) (s s' : state) (a : A) :
  m s = (s', ok a) -> bind m k s = k a s'.
Proof. intros H. unfold bind. now rewrite H. Qed.

Lemma bind_throw {A B} (m : M A) (k : A -> M B) (s s' : state) (e : error) :
  m s = (s', throw e) -> bind m k s = (s', throw e).
Proof. intros H. unfold bind. now rewrite H. Qed.

(** *** The run as a whole *)

(** No exception of the loop reaches the outer [catch]; only the query can
    get there, and only [pool.close()] can make the function reject. *)
Lemma processAllExistingImdbLinks_outcome (w : world) (s : state) :
  snd (processAllExistingImdbLinks w s)
  = match sql_connect w with
    | inl _ => ok tt
    | inr _ => match pool_close w with
               | inl e => throw e
               | inr _ => ok tt
               end
    end.
Proof.
  unfold processAllExistingImdbLinks.
  destruct (sql_connect w) as [e | u]; [reflexivity |].
  unfold try_finally, try_catch, bind, select_pending, lift, ok, throw.
  destruct (select_error w) as [e |].
  - simpl. destruct (pool_close w); reflexivity.
  - pose proof (for_of_process_row_ok w
      (pending (tblTalentIMDBResume w) (tblImdbMetaData s)) s) as H.
    unfold ok in H.
    destruct (for_of _ (process_row w) s) as [s' r]. simpl in H. subst r.
    destruct (pool_close w); reflexivity.
Qed.

Lemma processAllExistingImdbLinks_table (w : world) (s : state) :
  tblImdbMetaData (fst (processAllExistingImdbLinks w s))
  = match sql_connect w, select_error w with
    | inr _, None =>
        tblImdbMetaData s
        ++ flat_map (written w)
             (pending (tblTalentIMDBResume w) (tblImdbMetaData s))
    | _, _ => tblImdbMetaData s
    end.
Proof.
  unfold processAllExistingImdbLinks.
  destruct (sql_connect w) as [e | u]; [reflexivity |].
  unfold try_finally, try_catch, bind, select_pending, lift, ok, throw.
  destruct (select_error w) as [e |].
  - simpl. destruct (pool_close w); reflexivity.
  - pose proof (for_of_process_row_ok w
      (pending (tblTalentIMDBResume w) (tblImdbMetaData s)) s) as H.
    pose proof (for_of_process_row_table w
      (pending (tblTalentIMDBResume w) (tblImdbMetaData s)) s) as T.
    unfold ok in H.
    destruct (for_of _ (process_row w) s) as [s' r]. simpl in H, T. subst r.
    destruct (pool_close w); exact T.
Qed.

Lemma main_table (w : world) (s : state) :
  tblImdbMetaData (fst (main w s))
  = tblImdbMetaData (fst (processAllExistingImdbLinks w s)).
Proof.
  unfold main. destruct (processAllExistingImdbLinks w s) as [s' [e | u]];
    reflexivity.
Qed.

Lemma main_status (w : world) (s : state) :
  snd (main w s)
  = match sql_connect w with
    | inl _ => 0%Z
    | inr _ => match pool_close w with
               | inl _ => 1%Z
               | inr _ => 0%Z
               end
    end.
Proof.
  unfold main. pose proof (processAllExistingImdbLinks_outcome w s) as H.
  destruct (processAllExistingImdbLinks w s) as [s' r]. simpl in H. subst r.
  destruct (sql_connect w); [reflexivity |].
  destruct (pool_close w); reflexivity.
Qed.

(** *** C2 *)

(** The exit status in the words of the specification: not zero exactly
    when the connection cannot be established or the query fails. *)
Definition exit_status_as_stated (w : world) (status : Z) : Prop :=
  status <> 0%Z <->
  ((exists e, sql_connect w = throw e) \/ (exists e, select_error w = Some e)).

(** A run in which [sql.connect] rejects. *)
Definition world_without_connection : world :=
  {| next_data_html := fun _ => None;
     JSON_parse := fun _ => None;
     sql_connect := throw SqlError;
     select_error := None;
     tblTalentIMDBResume := [];
     fetch := fun _ => throw NetworkError;
     insert_error := fun _ => None;
     pool_close := ok tt |}.

(** C2, as stated, fails: [processAllExistingImdbLinks] catches the error of
    [sql.connect] on line 79 and returns, so the caller logs "Processing
    finished." and exits with status 0. *)
Lemma exit_status_without_connection :
  main world_without_connection (State [] [])
  = (State [] [MsgDatabaseError SqlError; MsgFinished], 0%Z) /\
  ~ exit_status_as_stated world_without_connection
      (snd (main world_without_connection (State [] []))).
Proof.
  split; [reflexivity |].
  intros [_ H]. apply H; [| reflexivity].
  left. now exists SqlError.
Qed.

(** C2, amended: the status is 0 or 1.  It is 0 whenever
    [processAllExistingImdbLinks] returns, which it does when an entity
    fails, when [sql.connect] rejects, and when the query fails and the pool
    closes; it is not 0 exactly when the connection was established and
    [pool.close()] rejects, the one error that line 79 does not catch. *)
Theorem exit_status_spec (w : world) (s : state) :
  (snd (main w s) = 0%Z \/ snd (main w s) = 1%Z) /\
  (snd (main w s) <> 0%Z <->
   (exists u, sql_connect w = ok u) /\ (exists e, pool_close w = throw e)) /\
  ((exists e, sql_connect w = throw e) -> snd (main w s) = 0%Z) /\
  ((exists e, select_error w = Some e) -> (exists u, pool_close w = ok u) ->
   snd (main w s) = 0%Z).
Proof.
  rewrite main_status. unfold ok, throw.
  destruct (sql_connect w) as [e | u]; [| destruct (pool_close w) as [e | u']].
  - split; [now left |]. split; [| split; reflexivity].
    split; [intros H0; now contradiction H0 | intros [[u Hu] _]; discriminate].
  - split; [now right |]. split; [split |].
    + intros _. split; [now exists u | now exists e].
    + intros _. discriminate.
    + split; [intros [e' He']; discriminate | intros _ [u' Hu']; discriminate].
  - split; [now left |]. split; [| split; reflexivity].
    split; [intros H0; now contradiction H0 | intros [_ [e He]]; discriminate].
Qed.

(** *** C4 *)

Lemma fetchImdbPage_ok (w : world) (imdbId html : string) (status : Z) (s : state) :
  fetch w ("https://www.imdb.com/name/" +++ imdbId +++ "/")
  = ok (Response true status (ok html)) ->
  fetchImdbPage w imdbId s = (s, ok html).
Proof.
  intros H. unfold fetchImdbPage, bind, lift. now rewrite H.
Qed.

Lemma extractFilmography_ok (w : world) (html : string)
    (lines : list (message credit)) (credits : list credit) (s : state) :
  extractFilmographyFromHtml (next_data_html w) (JSON_parse w) html
  = (lines, ok credits) ->
  extractFilmography w html s
  = (State (tblImdbMetaData s) (console s ++ lines), ok credits).
Proof.
  intros H. unfold extractFilmography. now rewrite H.
Qed.

Lemma for_of_insert_all (w : world) (id : Z) (credits : list credit) (s : state) :
  Forall (fun c => insert_error w (Metadata id c) = None) credits ->
  exists lines,
    for_of credits
      (fun credit => console_write (MsgInserting credit) ;; insert w id credit) s
    = (State (tblImdbMetaData s ++ map (Metadata id) credits) lines, ok tt).
Proof.
  intros H. revert s. induction H as [| c credits Hc _ IH]; intros s.
  - exists (console s). simpl. rewrite app_nil_r. now destruct s.
  - cbn [for_of]. unfold bind at 1. unfold bind at 1.
    cbn [console_write]. unfold insert at 1. rewrite Hc.
    cbn [tblImdbMetaData console].
    destruct (IH (State (tblImdbMetaData s ++ [Metadata id c])
                        (console s ++ [MsgInserting c]))) as [lines E].
    exists lines. unfold ok in *. cbv beta iota. rewrite E.
    cbn [tblImdbMetaData map]. now rewrite <- app_assoc.
Qed.

Lemma written_fetch_fails (w : world) (a : talent) (imdbId : string) :
  extractImdbId (IMDBLink a) = Some imdbId ->
  (exists e, forall s, fetchImdbPage w imdbId s = (s, throw e)) ->
  written w a = [].
Proof.
  intros Hid [e Hf]. unfold written, process_row, try_catch, row_body.
  rewrite Hid. erewrite bind_ok by reflexivity.
  erewrite bind_throw by apply Hf. reflexivity.
Qed.

Lemma written_all_inserted (w : world) (b : talent) (imdbId html : string)
    (status : Z) (lines : list (message credit)) (credits : list credit) :
  extractImdbId (IMDBLink b) = Some imdbId ->
  fetch w ("https://www.imdb.com/name/" +++ imdbId +++ "/")
  = ok (Response true status (ok html)) ->
  extractFilmographyFromHtml (next_data_html w) (JSON_parse w) html
  = (lines, ok credits) ->
  Forall (fun c => insert_error w (Metadata (TalentID b) c) = None) credits ->
  written w b = map (Metadata (TalentID b)) credits.
Proof.
  intros Hid Hf Hx Hi. unfold written, process_row, try_catch, row_body.
  rewrite Hid. erewrite bind_ok by reflexivity.
  erewrite bind_ok by (eapply fetchImdbPage_ok; exact Hf).
  erewrite bind_ok by (eapply extractFilmography_ok; exact Hx).
  erewrite bind_ok by reflexivity.
  match goal with
  | |- context [for_of credits ?body ?s] =>
      destruct (for_of_insert_all w (TalentID b) credits s Hi) as [ls E]
  end.
  rewrite E. reflexivity.
Qed.

(** C4: an exception of the fetch, the normalizer or an insert of one
    talent is caught by the [catch] of line 73, which logs it with the
    talent's key; the iteration ends normally in the state the talent left,
    the loop goes on with the next row, and no exception leaves the loop.
    With two pending talents, the first failing to fetch and the second
    fetched, normalized and inserted without error, the table gains exactly
    the rows of the second, in order, and the status is 0. *)
Theorem failure_isolation (w : world) :
  (forall row s e,
     snd (row_body w (TalentID row) (IMDBLink row) s) = throw e ->
     let s' := fst (row_body w (TalentID row) (IMDBLink row) s) in
     process_row w row s
     = (State (tblImdbMetaData s')
              (console s' ++ [MsgTalentError (TalentID row) e]),
        ok tt)) /\
  (forall row rows s,
     for_of (row :: rows) (process_row w) s
     = for_of rows (process_row w) (fst (process_row w row s))) /\
  (forall rows s, snd (for_of rows (process_row w) s) = ok tt) /\
  (forall s a b idA idB status html lines credits,
     sql_connect w = ok tt ->
     select_error w = None ->
     pool_close w = ok tt ->
     pending (tblTalentIMDBResume w) (tblImdbMetaData s) = [a; b] ->
     extractImdbId (IMDBLink a) = Some idA ->
     (exists e, forall st, fetchImdbPage w idA st = (st, throw e)) ->
     extractImdbId (IMDBLink b) = Some idB ->
     fetch w ("https://www.imdb.com/name/" +++ idB +++ "/")
     = ok (Response true status (ok html)) ->
     extractFilmographyFromHtml (next_data_html w) (JSON_parse w) html
     = (lines, ok credits) ->
     Forall (fun c => insert_error w (Metadata (TalentID b) c) = None)
       credits ->
     tblImdbMetaData (fst (main w s))
     = tblImdbMetaData s ++ map (Metadata (TalentID b)) credits /\
     snd (main w s) = 0%Z).
Proof.
  split; [| split; [| split]].
  - intros row s e H s'. unfold process_row, try_catch. subst s'.
    destruct (row_body w (TalentID row) (IMDBLink row) s) as [s1 r].
    simpl in H. now subst r.
  - intros. apply for_of_process_row_step.
  - intros. apply for_of_process_row_ok.
  - intros s a b idA idB status html lines credits
      Hc Hq Hclose Hp HidA HfA HidB HfB Hx Hi.
    split.
    + rewrite main_table, processAllExistingImdbLinks_table, Hc, Hq, Hp.
      unfold ok. simpl.
      rewrite (written_fetch_fails w a idA HidA HfA).
      rewrite (written_all_inserted w b idB html status lines credits
                 HidB HfB Hx Hi).
      now rewrite app_nil_r.
    + rewrite main_status, Hc, Hclose. reflexivity.
Qed.

(** *** C9 *)

Lemma has_metadata_app (t1 t2 : list metadata) (id : Z) :
  has_metadata (t1 ++ t2) id = has_metadata t1 id || has_metadata t2 id.
Proof. unfold has_metadata. apply existsb_app. Qed.

Lemma has_metadata_written (w : world) (rows : list talent) (row : talent) :
  In row rows -> written w row <> [] ->
  has_metadata (flat_map (written w) rows) (TalentID row) = true.
Proof.
  intros Hin Hne. unfold has_metadata. apply existsb_exists.
  destruct (written w row) as [| m ms] eqn:E; [congruence |].
  exists m. split.
  - apply in_flat_map. exists row. split; [exact Hin |].
    rewrite E. now left.
  - pose proof (written_TalentId w row) as F. rewrite E in F.
    inversion F; subst. now apply Z.eqb_eq.
Qed.

Lemma flat_map_nil {A B} (f : A -> list B) (xs : list A) :
  (forall x, In x xs -> f x = []) -> flat_map f xs = [].
Proof.
  induction xs as [| x xs IH]; intros H; simpl; [reflexivity |].
  rewrite (H x (or_introl eq_refl)), IH; [reflexivity |].
  intros y Hy. apply H. now right.
Qed.

(** A talent still pending after a run that processed its pending set wrote
    nothing in that run. *)
Lemma still_pending_wrote_nothing (w : world) (t : list metadata) (row : talent) :
  let source := tblTalentIMDBResume w in
  In row (pending source (t ++ flat_map (written w) (pending source t))) ->
  written w row = [].
Proof.
  intros source Hin. unfold pending in Hin.
  apply filter_In in Hin as [Hsrc Hno].
  apply negb_true_iff in Hno. rewrite has_metadata_app in Hno.
  apply orb_false_iff in Hno as [Ht Hw].
  destruct (written w row) as [| m ms] eqn:E; [reflexivity |].
  rewrite has_metadata_written in Hw; [discriminate | | congruence].
  apply filter_In. split; [exact Hsrc |]. now rewrite Ht.
Qed.

(** C9: a second run in the same world, started from the table the first
    run left, adds no row.  A talent with a row in the table is not in the
    pending set; and when the first run processed its pending set, every
    talent still pending wrote nothing then and writes nothing again. *)
Theorem sync_idempotent (w : world) (s : state) :
  let s1 := fst (main w s) in
  let s2 := fst (main w s1) in
  tblImdbMetaData s2 = tblImdbMetaData s1 /\
  (forall row m,
     In m (tblImdbMetaData s1) -> TalentId m = TalentID row ->
     ~ In row (pending (tblTalentIMDBResume w) (tblImdbMetaData s1))) /\
  (forall row u,
     sql_connect w = ok u -> select_error w = None ->
     In row (pending (tblTalentIMDBResume w) (tblImdbMetaData s1)) ->
     forall st,
       tblImdbMetaData (fst (process_row w row st)) = tblImdbMetaData st).
Proof.
  intros s1 s2.
  assert (E1 : tblImdbMetaData s1
          = match sql_connect w, select_error w with
            | inr _, None =>
                tblImdbMetaData s
                ++ flat_map (written w)
                     (pending (tblTalentIMDBResume w) (tblImdbMetaData s))
            | _, _ => tblImdbMetaData s
            end).
  { subst s1. now rewrite main_table, processAllExistingImdbLinks_table. }
  split; [| split].
  - subst s2. rewrite main_table, processAllExistingImdbLinks_table.
    destruct (sql_connect w) as [e | u]; [reflexivity |].
    destruct (select_error w) as [e |]; [reflexivity |].
    rewrite flat_map_nil; [apply app_nil_r |].
    intros row Hin. rewrite E1 in Hin.
    now apply still_pending_wrote_nothing in Hin.
  - intros row m Hm Hid Hin. unfold pending in Hin.
    apply filter_In in Hin as [_ Hno]. apply negb_true_iff in Hno.
    assert (Hyes : has_metadata (tblImdbMetaData s1) (TalentID row) = true).
    { unfold has_metadata. apply existsb_exists. exists m.
      split; [exact Hm | now apply Z.eqb_eq]. }
    congruence.
  - intros row u Hc Hq Hin st. rewrite process_row_table.
    rewrite E1, Hc, Hq in Hin. unfold ok in Hin.
    apply still_pending_wrote_nothing in Hin. rewrite Hin.
    apply app_nil_r.
Qed.

(** *** The two-talent run of C4 *)

(** Talent 1 cannot be fetched; talent 7 has a page with one credit. *)
Definition world_two_talents : world :=
  {| next_data_html := stub_next_data_html;
     JSON_parse := stub_JSON_parse;
     sql_connect := ok tt;
     select_error := None;
     tblTalentIMDBResume :=
       [Talent 1 (Some "https://www.imdb.com/name/nm0000001/");
        Talent 7 (Some "https://x/name/nm0000123/")];
     fetch := fun url =>
       if url =? "https://www.imdb.com/name/nm0000123/"
       then ok (Response true 200 (ok (page_of (encode payload_one_group))))
       else throw NetworkError;
     insert_error := fun _ => None;
     pool_close := ok tt |}.

Definition credit_show_x : credit :=
  {| title := VStr "Show X";
     titleUrl := VStr "";
     fromYear := VStr "";
     toYear := VNull;
     noOfEpisodes := VNum 0;
     type := VStr "";
     role := VStr "";
     currentProductionStage := VStr "" |}.

Lemma failure_isolation_witness :
  tblImdbMetaData (fst (main world_two_talents (State [] [])))
  = [] ++ map (Metadata 7) [credit_show_x] /\
  snd (main world_two_talents (State [] [])) = 0%Z.
Proof.
  apply (proj2 (proj2 (proj2 (failure_isolation world_two_talents)))
           (State [] [])
           (Talent 1 (Some "https://www.imdb.com/name/nm0000001/"))
           (Talent 7 (Some "https://x/name/nm0000123/"))
           "nm0000001" "nm0000123" 200%Z
           (page_of (encode payload_one_group)) [] [credit_show_x]).
  - reflexivity.
  - reflexivity.
  - reflexivity.
  - reflexivity.
  - reflexivity.
  - exists NetworkError. intros st. reflexivity.
  - reflexivity.
  - reflexivity.
  - vm_compute. reflexivity.
  - repeat constructor.
Defined.

(** *** Runs of the example world *)

(** The second run of the two-talent world finds talent 1 still pending,
    fails to fetch it again, and leaves the table as the first run did. *)
Example sync_twice_two_talents :
  let s1 := fst (main world_two_talents (State [] [])) in
  pending (tblTalentIMDBResume world_two_talents) (tblImdbMetaData s1)
  = [Talent 1 (Some "https://www.imdb.com/name/nm0000001/")] /\
  tblImdbMetaData (fst (main world_two_talents s1)) = tblImdbMetaData s1.
Proof. vm_compute. split; reflexivity. Qed.

(** A connection that opens and then fails to close gives status 1. *)
Example exit_status_close_fails :
  main {| next_data_html := stub_next_data_html;
          JSON_parse := stub_JSON_parse;
          sql_connect := ok tt;
          select_error := None;
          tblTalentIMDBResume := [];
          fetch := fun _ => throw NetworkError;
          insert_error := fun _ => None;
          pool_close := throw SqlError |} (State [] [])
  = (State [] [MsgUnexpected SqlError], 1%Z).
Proof. reflexivity. Qed.

(** A query that fails on an open connection is logged as a database error
    and the status is still 0. *)
Example exit_status_query_fails :
  main {| next_data_html := stub_next_data_html;
          JSON_parse := stub_JSON_parse;
          sql_connect := ok tt;
          select_error := Some SqlError;
          tblTalentIMDBResume := [Talent 1 None];
          fetch := fun _ => throw NetworkError;
          insert_error := fun _ => None;
          pool_close := ok tt |} (State [] [])
  = (State [] [MsgDatabaseError SqlError; MsgFinished], 0%Z).
Proof. reflexivity. Qed.

(** * Further properties *)

(** ** The identifier extractor: which occurrence, and the way back *)

Lemma match_here_head (c : ascii) (post : string) :
  is_digit c = true ->
  exists m, match_here ("/name/nm" +++ String c post) = Some m.
Proof.
  intros Hc. unfold match_here. rewrite strip_prefix_complete.
  simpl. rewrite Hc. eexists. reflexivity.
Qed.

Lemma regex_search_leftmost (s tok : string) :
  regex_search s = Some tok ->
  exists pre ds post,
    s = pre +++ "/name/nm" +++ ds +++ post /\ ds <> "" /\
    all_digits ds = true /\ tok = "nm" +++ ds /\
    starts_with_digit post = false /\
    forall pre' c post',
      s = pre' +++ "/name/nm" +++ String c post' -> is_digit c = true ->
      String.length pre <= String.length pre'.
Proof.
  induction s as [| a s IH]; intros H.
  - simpl in H. discriminate.
  - cbn [regex_search] in H.
    destruct (match_here (String a s)) as [m |] eqn:Hm.
    + inversion H; subst m.
      destruct (match_here_sound _ _ Hm) as (ds & post & E & Hne & D & T & P).
      exists "", ds, post.
      split; [exact E |]. split; [exact Hne |]. split; [exact D |].
      split; [exact T |]. split; [exact P |].
      intros pre' c post' _ _. simpl. lia.
    + destruct (IH H) as (pre & ds & post & E & Hne & D & T & P & L).
      exists (String a pre), ds, post.
      split; [simpl; now rewrite E |]. split; [exact Hne |].
      split; [exact D |]. split; [exact T |]. split; [exact P |].
      intros pre' c post' E' Hc. destruct pre' as [| a' pre'].
      * simpl in E'. destruct (match_here_head c post' Hc) as [m Hm'].
        simpl in Hm'. rewrite <- E' in Hm'. congruence.
      * change (String a' pre' +++ "/name/nm" +++ String c post')
          with (String a' (pre' +++ "/name/nm" +++ String c post')) in E'.
        inversion E' as [[Ha Hs]].
        simpl. apply le_n_S. exact (L pre' c post' Hs Hc).
Qed.

(** X1: the identifier comes from the leftmost place where ["/name/nm"] is
    followed by a digit: no such place starts before the one it is taken
    from. *)
Theorem extractImdbId_leftmost (s tok : string) :
  extractImdbId (Some s) = Some tok ->
  exists pre ds post,
    s = pre +++ "/name/nm" +++ ds +++ post /\
    tok = "nm" +++ ds /\
    starts_with_digit post = false /\
    forall pre' c post',
      s = pre' +++ "/name/nm" +++ String c post' -> is_digit c = true ->
      String.length pre <= String.length pre'.
Proof.
  rewrite extractImdbId_regex. intros H.
  destruct (regex_search_leftmost _ _ H)
    as (pre & ds & post & E & _ & _ & T & P & L).
  exists pre, ds, post. auto.
Qed.

Lemma extractImdbId_leftmost_witness :
  exists pre ds post,
    "/name/nm/x/name/nm12a/name/nm7" = pre +++ "/name/nm" +++ ds +++ post /\
    "nm12" = "nm" +++ ds /\
    starts_with_digit post = false /\
    forall pre' c post',
      "/name/nm/x/name/nm12a/name/nm7" = pre' +++ "/name/nm" +++ String c post' ->
      is_digit c = true ->
      String.length pre <= String.length pre'.
Proof.
  apply (extractImdbId_leftmost "/name/nm/x/name/nm12a/name/nm7" "nm12").
  reflexivity.
Defined.

Lemma take_digits_then_slash (ds rest : string) :
  all_digits ds = true -> take_digits (ds +++ String "/" rest) = ds.
Proof.
  induction ds as [| c ds IH]; simpl; intros H; [reflexivity |].
  apply andb_prop in H as [Hc Hd]. now rewrite Hc, IH.
Qed.

(** The address [fetchImdbPage] asks for gives back the identifier it was
    built from. *)
Lemma extractImdbId_of_page_address (ds : string) :
  ds <> "" -> all_digits ds = true ->
  extractImdbId (Some ("https://www.imdb.com/name/" +++ ("nm" +++ ds) +++ "/"))
  = Some ("nm" +++ ds).
Proof.
  intros Hne Hd. rewrite extractImdbId_regex.
  change ("https://www.imdb.com/name/" +++ ("nm" +++ ds) +++ "/")
    with ("https://www.imdb.com" +++ "/name/nm" +++ ds +++ "/").
  cbn -[take_digits]. rewrite (take_digits_then_slash ds "" Hd).
  destruct ds; [congruence | reflexivity].
Qed.

(** X2: whatever link an identifier was extracted from, extracting again
    from the page address built with it, ["https://www.imdb.com/name/" + id
    + "/"], gives the same identifier. *)
Theorem extractImdbId_page_address_round_trip (s tok : string) :
  extractImdbId (Some s) = Some tok ->
  extractImdbId (Some ("https://www.imdb.com/name/" +++ tok +++ "/"))
  = Some tok.
Proof.
  rewrite (extractImdbId_regex s). intros H.
  destruct (regex_search_sound _ _ H) as (pre & ds & post & _ & Hne & D & T & _).
  subst tok. now apply extractImdbId_of_page_address.
Qed.

Lemma extractImdbId_page_address_round_trip_witness :
  extractImdbId (Some ("https://www.imdb.com/name/" +++ "nm0000123" +++ "/"))
  = Some "nm0000123".
Proof.
  apply (extractImdbId_page_address_round_trip
           "http://imdb.com/name/nm0000123?ref=x" "nm0000123").
  reflexivity.
Defined.

(** ** The records of [src/index.js] *)

Local Close Scope driver_scope.

(** A field taken with [value || d] holds [d] or a truthy value. *)
Definition defaulted (d v : value) : Prop := v = d \/ truthy v = true.

Lemma or_else_defaulted (a d : value) : defaulted d (a ||| d).
Proof.
  unfold defaulted, or_else. destruct (truthy a) eqn:E; auto.
Qed.

Lemma edge_credit_inv (edge : value) (c : Index.credit) :
  Index.edge_credit edge = ok c ->
  let node := edge?."node" in
  exists u f t,
    (if truthy node?."title"?."id"
     then title_url (get (get node "title") "id")
     else ok (VStr "")) = ok u /\
    Index.fromYear_of node = ok f /\
    Index.toYear_of node = ok t /\
    c = Index.Credit
          (node?."title"?."titleText"?."text" ||| VStr "") u f t
          (node?."episodeCredits"?."total" ||| VNum 0)
          (node?."title"?."titleType"?."text" ||| VStr "")
          ((oget0 node?."characters")?."name" ||| node?."category"?."text"
           ||| VStr "")
          (node?."title"?."productionStatus"?."currentProductionStage"?."text"
           ||| VStr "").
Proof.
  intros H node. unfold Index.edge_credit in H. fold node in H.
  destruct (if truthy node?."title"?."id" then _ else _) as [e | u];
    simpl in H; [discriminate |].
  destruct (Index.fromYear_of node) as [e | f]; simpl in H; [discriminate |].
  destruct (Index.toYear_of node) as [e | t]; simpl in H; [discriminate |].
  inversion H. exists u, f, t. auto.
Qed.

Lemma title_url_shape (id u : value) :
  title_url id = ok u ->
  exists s, ToString id = ok s /\
            u = VStr ("https://www.imdb.com/title/" +++ s +++ "/").
Proof.
  unfold title_url. destruct (ToString id) as [e | s]; simpl;
    [discriminate |].
  intros H. inversion H. now exists s.
Qed.

Lemma fromYear_of_string (node v : value) :
  Index.fromYear_of node = ok v -> exists s, v = VStr s.
Proof.
  unfold Index.fromYear_of.
  destruct (Index.episode_year node) as [err | a] eqn:Ha; simpl;
    [discriminate |].
  destruct (truthy a) eqn:Ht.
  - intros H; inversion H; subst v.
    rewrite episode_year_eq in Ha. cbv zeta in Ha.
    destruct (nullish _) in Ha.
    + inversion Ha; subst a. discriminate.
    + now apply toString_is_string in Ha.
  - destruct (Index.release_year node) as [err | b] eqn:Hb; simpl;
      [discriminate |].
    intros H; inversion H; subst v. unfold or_else.
    destruct (truthy b) eqn:Htb; [| now exists ""].
    rewrite release_year_eq in Hb. cbv zeta in Hb.
    destruct (nullish _) in Hb.
    + inversion Hb; subst b. discriminate.
    + now apply toString_is_string in Hb.
Qed.

Lemma toYear_of_shape (node v : value) :
  Index.toYear_of node = ok v ->
  v = VNull \/ exists s, s <> "" /\ v = VStr s.
Proof.
  unfold Index.toYear_of, otoString, chain.
  destruct (nullish _).
  - simpl. intros H; inversion H. now left.
  - destruct (toString _) as [err | c] eqn:Hc; simpl; [discriminate |].
    intros H; inversion H; subst v.
    destruct (toString_is_string _ _ Hc) as [s ->]. unfold or_else.
    destruct (truthy (VStr s)) eqn:Ht; [| now left].
    right. exists s. split; [now apply truthy_VStr | reflexivity].
Qed.

(** X3: in every record the normalizer of [src/index.js] builds, [title],
    [type], [role] and [currentProductionStage] are the empty string or a
    truthy value, [noOfEpisodes] is [0] or a truthy value, [titleUrl] is the
    empty string or the title address around the identifier's string,
    [fromYear] is a string, and [toYear] is [null] or a string that is not
    empty.  So no field is [undefined], and only [toYear] can be [null]. *)
Theorem edge_credit_fields (edge : value) (c : Index.credit) :
  Index.edge_credit edge = ok c ->
  defaulted (VStr "") (Index.title c) /\
  (Index.titleUrl c = VStr "" \/
   exists s, Index.titleUrl c
             = VStr ("https://www.imdb.com/title/" +++ s +++ "/")) /\
  (exists s, Index.fromYear c = VStr s) /\
  (Index.toYear c = VNull \/
   exists s, s <> "" /\ Index.toYear c = VStr s) /\
  defaulted (VNum 0) (Index.noOfEpisodes c) /\
  defaulted (VStr "") (Index.type c) /\
  defaulted (VStr "") (Index.role c) /\
  defaulted (VStr "") (Index.currentProductionStage c).
Proof.
  intros H. destruct (edge_credit_inv _ _ H) as (u & f & t & Hu & Hf & Ht & ->).
  cbn [Index.title Index.titleUrl Index.fromYear Index.toYear
       Index.noOfEpisodes Index.type Index.role Index.currentProductionStage].
  split; [apply or_else_defaulted |].
  split.
  { destruct (truthy _) in Hu.
    - right. destruct (title_url_shape _ _ Hu) as (s & _ & ->). now exists s.
    - left. now inversion Hu. }
  split; [now apply fromYear_of_string in Hf |].
  split; [now apply toYear_of_shape in Ht |].
  repeat split; apply or_else_defaulted.
Qed.

Lemma edge_credit_fields_witness :
  defaulted (VStr "") (VStr "Show X") /\
  (VStr "" = VStr "" \/
   exists s, VStr "" = VStr ("https://www.imdb.com/title/" +++ s +++ "/")) /\
  (exists s, VStr "" = VStr s) /\
  (VNull = VNull \/ exists s, s <> "" /\ VNull = VStr s) /\
  defaulted (VNum 0) (VNum 0) /\
  defaulted (VStr "") (VStr "") /\
  defaulted (VStr "") (VStr "") /\
  defaulted (VStr "") (VStr "").
Proof.
  apply (edge_credit_fields edge_show_x
           (Index.Credit (VStr "Show X") (VStr "") (VStr "") VNull (VNum 0)
              (VStr "") (VStr "") (VStr ""))).
  reflexivity.
Defined.

(** *** Edges with fields of the expected kinds *)

(** Booleans, numbers and strings: the values whose conversion to a string
    cannot throw whatever they hold. *)
Definition scalar (v : value) : bool :=
  match v with
  | VBool _ | VNum _ | VStr _ => true
  | _ => false
  end.

Lemma ToString_scalar (v : value) :
  scalar v = true -> exists s, ToString v = ok s.
Proof.
  destruct v as [| | [|] | n | s | xs | ps]; simpl; try discriminate;
    intros _; eexists; reflexivity.
Qed.

Lemma toString_scalar (v : value) :
  scalar v = true -> exists s, toString v = ok (VStr s).
Proof.
  intros H. destruct (ToString_scalar v H) as [s Hs].
  exists s. unfold toString. rewrite Hs.
  destruct v; simpl in *; try discriminate; reflexivity.
Qed.

Lemma otoString_total (v : value) :
  nullish v = true \/ scalar v = true -> exists c, otoString v = ok c.
Proof.
  unfold otoString, chain. intros [H | H].
  - rewrite H. now exists VUndefined.
  - destruct (nullish v); [now exists VUndefined |].
    destruct (toString_scalar v H) as [s ->]. now exists (VStr s).
Qed.

Lemma title_url_total (id : value) :
  truthy id = false \/ scalar id = true ->
  exists u, (if truthy id then title_url id else ok (VStr "")) = ok u.
Proof.
  intros [H | H].
  - rewrite H. now exists (VStr "").
  - destruct (truthy id); [| now exists (VStr "")].
    unfold title_url. destruct (ToString_scalar id H) as [s ->].
    simpl. eexists. reflexivity.
Qed.

Lemma get_get_title_id (node : value) :
  truthy node?."title"?."id" = true ->
  get (get node "title") "id" = node?."title"?."id".
Proof.
  unfold oget. destruct (nullish node) eqn:Hn; [discriminate |].
  destruct (nullish (get node "title")); [discriminate | reflexivity].
Qed.

Lemma edge_title_url_total (node : value) :
  truthy node?."title"?."id" = false \/ scalar node?."title"?."id" = true ->
  exists u,
    (if truthy node?."title"?."id"
     then title_url (get (get node "title") "id")
     else ok (VStr "")) = ok u.
Proof.
  intros H. destruct (title_url_total _ H) as [u Hu].
  destruct (truthy node?."title"?."id") eqn:E.
  - rewrite (get_get_title_id node E). now exists u.
  - now exists (VStr "").
Qed.

Lemma edge_credit_defined (edge : value) :
  let node := edge?."node" in
  let yr := node?."episodeCredits"?."yearRange" in
  let ry := node?."title"?."releaseYear" in
  truthy node?."title"?."id" = false \/ scalar node?."title"?."id" = true ->
  nullish yr = true \/ scalar (get yr "year") = true ->
  nullish ry = true \/ scalar (get ry "year") = true ->
  nullish yr?."endYear" = true \/ scalar yr?."endYear" = true ->
  exists c, Index.edge_credit edge = ok c.
Proof.
  intros node yr ry Hid Hy Hr He.
  unfold Index.edge_credit. fold node.
  destruct (edge_title_url_total node Hid) as [u ->]. simpl.
  assert (Hf : exists f, Index.fromYear_of node = ok f).
  { unfold Index.fromYear_of. rewrite episode_year_eq, release_year_eq.
    fold yr ry. cbv zeta.
    assert (Hb : exists b,
               (if nullish ry then ok VUndefined else toString (get ry "year"))
               = ok b).
    { destruct Hr as [Hr | Hr].
      - rewrite Hr. now exists VUndefined.
      - destruct (nullish ry); [now exists VUndefined |].
        destruct (toString_scalar _ Hr) as [s ->]. now exists (VStr s). }
    destruct Hb as [b Hb].
    destruct Hy as [Hy | Hy].
    - rewrite Hy. simpl. rewrite Hb. simpl. eexists. reflexivity.
    - destruct (nullish yr).
      + simpl. rewrite Hb. simpl. eexists. reflexivity.
      + destruct (toString_scalar _ Hy) as [s ->]. simpl.
        destruct (negb (s =? "")).
        * eexists. reflexivity.
        * rewrite Hb. simpl. eexists. reflexivity. }
  destruct Hf as [f ->]. simpl.
  unfold Index.toYear_of.
  change (node?."episodeCredits"?."yearRange"?."endYear") with (yr?."endYear").
  destruct (otoString_total _ He) as [c ->]. simpl.
  eexists. reflexivity.
Qed.

(** X4: the normalizer of [src/index.js] gives a record for every edge in
    which the title identifier is falsy or a boolean, number or string, the
    year range and the release-year object are missing or hold such a value
    as [year], and [endYear] is missing or such a value; every other field
    may be missing or hold anything. *)
Theorem edge_credit_total (edge : value) :
  let node := edge?."node" in
  let yr := node?."episodeCredits"?."yearRange" in
  let ry := node?."title"?."releaseYear" in
  truthy node?."title"?."id" = false \/ scalar node?."title"?."id" = true ->
  nullish yr = true \/ scalar (get yr "year") = true ->
  nullish ry = true \/ scalar (get ry "year") = true ->
  nullish yr?."endYear" = true \/ scalar yr?."endYear" = true ->
  exists c, Index.edge_credit edge = ok c.
Proof. exact (edge_credit_defined edge). Qed.

Lemma edge_credit_total_witness :
  exists c,
    Index.edge_credit
      (obj1 "node"
         (VObj [("title", VObj [("id", VStr "tt9999");
                                ("releaseYear", obj1 "year" (VNum 2020))]);
                ("episodeCredits",
                 obj1 "yearRange" (VObj [("year", VNum 2019);
                                         ("endYear", VNum 2021)]))]))
    = ok c.
Proof.
  apply (edge_credit_total
           (obj1 "node"
              (VObj [("title", VObj [("id", VStr "tt9999");
                                     ("releaseYear", obj1 "year" (VNum 2020))]);
                     ("episodeCredits",
                      obj1 "yearRange" (VObj [("year", VNum 2019);
                                              ("endYear", VNum 2021)]))])));
    right; reflexivity.
Defined.

(** ** The credit containers of [src/index.js] *)

Lemma collect_edges_array (imdbJson v : value) :
  Index.collect_edges imdbJson = ok v -> exists es, v = VArr es.
Proof.
  unfold Index.collect_edges.
  destruct (spread _) as [e | r]; simpl; [discriminate |].
  destruct (spread _) as [e | u]; simpl; [discriminate |].
  intros H. inversion H. eexists. reflexivity.
Qed.

(** X5: the version of [src/index.js] never writes the warning of line
    133.  [flatMap] always gives an array, so the test of line 132 never
    holds: a decoded payload, whatever it is, adds no console line, and the
    only lines the normalizer can write are the two errors about the block. *)
Theorem index_never_warns :
  (forall imdbJson, fst (Index.credits_of_json imdbJson) = []) /\
  (forall next_data_html JSON_parse html,
     let lines :=
       fst (Index.extractFilmographyFromHtml next_data_html JSON_parse html) in
     lines = [] \/ lines = [MsgNextDataNotFound] \/ lines = [MsgParseFailed]).
Proof.
  assert (H : forall imdbJson, fst (Index.credits_of_json imdbJson) = []).
  { intros j. unfold Index.credits_of_json.
    destruct (Index.collect_edges j) as [e | v] eqn:E; [reflexivity |].
    destruct (collect_edges_array _ _ E) as [es ->]. reflexivity. }
  split; [exact H |].
  intros ndh jp html. unfold Index.extractFilmographyFromHtml.
  destruct (ndh html) as [script |]; [| auto].
  destruct (script =? ""); [auto |].
  destruct (jp script) as [j |]; [| auto].
  left. apply H.
Qed.

(** A container that is missing, or falsy, counts as no group at all; an
    array gives its groups. *)
Definition container_is (v : value) (groups : list value) : Prop :=
  (truthy v = false /\ groups = []) \/ v = VArr groups.

(** What [flatMap] takes from one group: nothing when [credits.edges] is
    missing or falsy, the elements of an array, and a truthy value that is
    not an array as a single edge. *)
Definition group_gives (g : value) (edges : list value) : Prop :=
  let e := g?."credits"?."edges" in
  (truthy e = false /\ edges = []) \/
  e = VArr edges \/
  (truthy e = true /\ Array_isArray e = false /\ edges = [e]).

Lemma spread_container (v : value) (groups : list value) :
  container_is v groups -> spread (v ||| VArr []) = ok groups.
Proof.
  unfold or_else. intros [[H ->] | ->]; [now rewrite H | reflexivity].
Qed.

Lemma flatMap_group_gives (groups : list value) (edges : list (list value)) :
  Forall2 group_gives groups edges ->
  flatMap (fun credit => credit?."credits"?."edges" ||| VArr []) groups
  = List.concat edges.
Proof.
  unfold flatMap.
  induction 1 as [| g es groups edges Hg _ IH]; simpl; [reflexivity |].
  rewrite IH. f_equal. unfold or_else.
  destruct Hg as [[H ->] | [H | (H & Ha & ->)]].
  - now rewrite H.
  - now rewrite H.
  - rewrite H. now destruct (g?."credits"?."edges").
Qed.

Lemma credits_of_json_loop
    (imdbJson : value) (rs us : list value) (rel unrel : list (list value)) :
  container_is (mainColumnData imdbJson)?."releasedPrimaryCredits" rs ->
  container_is (mainColumnData imdbJson)?."unreleasedPrimaryCredits" us ->
  Forall2 group_gives rs rel ->
  Forall2 group_gives us unrel ->
  Index.credits_of_json imdbJson
  = ([], mapR Index.edge_credit (List.concat rel ++ List.concat unrel)).
Proof.
  intros Hr Hu Hrel Hunrel.
  unfold Index.credits_of_json, Index.collect_edges.
  rewrite (spread_container _ _ Hr), (spread_container _ _ Hu). simpl.
  now rewrite flatMap_app, (flatMap_group_gives _ _ Hrel),
    (flatMap_group_gives _ _ Hunrel).
Qed.

(** X6: tolerance of the schema.  With each container missing, falsy or an
    array, and each group giving no edge, the elements of its array of edges,
    or its one value that is not an array, the normalizer loops over the
    edges of the released groups followed by those of the unreleased groups
    and writes no console line; with nothing to loop over it returns the
    empty list. *)
Theorem credits_of_json_containers
    (imdbJson : value) (rs us : list value) (rel unrel : list (list value)) :
  container_is (mainColumnData imdbJson)?."releasedPrimaryCredits" rs ->
  container_is (mainColumnData imdbJson)?."unreleasedPrimaryCredits" us ->
  Forall2 group_gives rs rel ->
  Forall2 group_gives us unrel ->
  Index.credits_of_json imdbJson
  = ([], mapR Index.edge_credit (List.concat rel ++ List.concat unrel)) /\
  (List.concat rel ++ List.concat unrel = [] ->
   Index.credits_of_json imdbJson = ([], ok [])).
Proof.
  intros Hr Hu Hrel Hunrel.
  pose proof (credits_of_json_loop imdbJson rs us rel unrel Hr Hu Hrel Hunrel)
    as E.
  split; [exact E |]. intros Hnil. now rewrite E, Hnil.
Qed.

(** A payload of the newer shape without the released container: one
    unreleased group with an edge, one group without [credits]. *)
Definition payload_unreleased_only : value :=
  obj1 "props" (obj1 "pageProps" (obj1 "mainColumnData"
    (obj1 "unreleasedPrimaryCredits"
       (VArr [group (VArr [edge_show_x]); VObj []])))).

Lemma credits_of_json_containers_witness :
  Index.credits_of_json payload_unreleased_only
  = ([], mapR Index.edge_credit
           (List.concat [] ++ List.concat [[edge_show_x]; []])) /\
  (List.concat [] ++ List.concat [[edge_show_x]; []] = [] ->
   Index.credits_of_json payload_unreleased_only = ([], ok [])).
Proof.
  apply (credits_of_json_containers payload_unreleased_only
           [] [group (VArr [edge_show_x]); VObj []] [] [[edge_show_x]; []]).
  - left. split; reflexivity.
  - right. reflexivity.
  - constructor.
  - constructor; [right; left; reflexivity |].
    constructor; [left; split; reflexivity | constructor].
Defined.

(** What the spread of line 128 accepts. *)
Definition iterable (v : value) : bool :=
  match v with
  | VArr _ | VStr _ => true
  | _ => false
  end.

Lemma spread_not_iterable (v : value) :
  truthy v = true -> iterable v = false ->
  spread (v ||| VArr []) = throw TypeError.
Proof.
  unfold or_else. intros Ht Hi. rewrite Ht.
  destruct v; try discriminate; reflexivity.
Qed.

Lemma spread_error (v : value) (e : error) : spread v = throw e -> e = TypeError.
Proof.
  destruct v; simpl; intros H; inversion H; reflexivity.
Qed.

(** X7: a container that is present, truthy and neither an array nor a
    string (an object, a number other than 0, [true]) makes the normalizer
    throw a [TypeError] for the whole document, whatever the other container
    holds: the spread of line 128 cannot iterate over it. *)
Theorem credits_of_json_container_not_iterable (imdbJson : value) :
  let r := (mainColumnData imdbJson)?."releasedPrimaryCredits" in
  let u := (mainColumnData imdbJson)?."unreleasedPrimaryCredits" in
  (truthy r = true /\ iterable r = false) \/
  (truthy u = true /\ iterable u = false) ->
  Index.credits_of_json imdbJson = ([], throw TypeError).
Proof.
  intros r u H. unfold Index.credits_of_json, Index.collect_edges.
  fold r u.
  destruct (spread (r ||| VArr [])) as [e | rs] eqn:Er.
  - apply spread_error in Er. now subst e.
  - destruct H as [[Ht Hi] | [Ht Hi]].
    + rewrite (spread_not_iterable r Ht Hi) in Er. discriminate.
    + simpl. now rewrite (spread_not_iterable u Ht Hi).
Qed.

Lemma credits_of_json_container_not_iterable_witness :
  Index.credits_of_json
    (payload (VArr [group (VArr [edge_show_x])]) (VObj []))
  = ([], throw TypeError).
Proof.
  apply (credits_of_json_container_not_iterable
           (payload (VArr [group (VArr [edge_show_x])]) (VObj []))).
  right. split; reflexivity.
Defined.

(** An edge of which the newer version asks nothing but the kind of four
    fields: the title identifier is falsy or a boolean, number or string;
    the year range and the release-year object are missing or hold such a
    value as [year]; [endYear] is missing or such a value. *)
Definition index_edge_ok (edge : value) : Prop :=
  let node := edge?."node" in
  let yr := node?."episodeCredits"?."yearRange" in
  let ry := node?."title"?."releaseYear" in
  (truthy node?."title"?."id" = false \/ scalar node?."title"?."id" = true) /\
  (nullish yr = true \/ scalar (get yr "year") = true) /\
  (nullish ry = true \/ scalar (get ry "year") = true) /\
  (nullish yr?."endYear" = true \/ scalar yr?."endYear" = true).

(** X23: on a page whose block decodes, whose containers are missing, falsy
    or arrays of groups, and whose edges all are of that kind, the
    normalizer of [src/index.js] does not throw and writes no console line:
    it returns one record per edge, released edges first, in the order of
    the payload. *)
Theorem extractFilmographyFromHtml_total
    (next_data_html : string -> option string)
    (JSON_parse : string -> option value)
    (html script : string) (imdbJson : value)
    (rs us : list value) (rel unrel : list (list value)) :
  next_data_html html = Some script ->
  script <> "" ->
  JSON_parse script = Some imdbJson ->
  container_is (mainColumnData imdbJson)?."releasedPrimaryCredits" rs ->
  container_is (mainColumnData imdbJson)?."unreleasedPrimaryCredits" us ->
  Forall2 group_gives rs rel ->
  Forall2 group_gives us unrel ->
  Forall index_edge_ok (List.concat rel ++ List.concat unrel) ->
  exists credits,
    Index.extractFilmographyFromHtml next_data_html JSON_parse html
    = ([], ok credits) /\
    List.length credits
    = (List.length (List.concat rel) + List.length (List.concat unrel))%nat /\
    Forall2 (fun edge c => Index.edge_credit edge = ok c)
      (List.concat rel ++ List.concat unrel) credits.
Proof.
  intros Hh Hne Hp Hr Hu Hrel Hunrel Hall.
  unfold Index.extractFilmographyFromHtml. rewrite Hh.
  destruct (String.eqb_spec script "") as [-> | _]; [congruence |].
  rewrite Hp, (credits_of_json_loop imdbJson rs us rel unrel Hr Hu Hrel Hunrel).
  assert (Hex : Forall (fun edge => exists c, Index.edge_credit edge = ok c)
                  (List.concat rel ++ List.concat unrel)).
  { eapply Forall_impl; [| exact Hall].
    intros edge (Hid & Hy & Hry & He).
    exact (edge_credit_defined edge Hid Hy Hry He). }
  destruct (mapR_total Index.edge_credit _ Hex) as [credits Hm].
  exists credits. rewrite Hm. split; [reflexivity |].
  pose proof (mapR_ok _ _ _ Hm) as F. split; [| exact F].
  rewrite <- (Forall2_length F). apply length_app.
Qed.

Lemma extractFilmographyFromHtml_total_witness :
  exists credits,
    Index.extractFilmographyFromHtml stub_next_data_html stub_JSON_parse
      (page_of (encode payload_more_groups))
    = ([], ok credits) /\
    List.length credits
    = (List.length (List.concat [[edge_show_x]; [edge_show_x]])
       + List.length (List.concat [[edge_show_x]]))%nat /\
    Forall2 (fun edge c => Index.edge_credit edge = ok c)
      (List.concat [[edge_show_x]; [edge_show_x]]
       ++ List.concat [[edge_show_x]])
      credits.
Proof.
  apply (extractFilmographyFromHtml_total stub_next_data_html stub_JSON_parse
           (page_of (encode payload_more_groups))
           (encode payload_more_groups) payload_more_groups
           [group (VArr [edge_show_x]); group (VArr [edge_show_x])]
           [group (VArr [edge_show_x])]
           [[edge_show_x]; [edge_show_x]] [[edge_show_x]]).
  - vm_compute. reflexivity.
  - vm_compute. discriminate.
  - vm_compute. reflexivity.
  - right. reflexivity.
  - right. reflexivity.
  - repeat constructor; right; left; reflexivity.
  - repeat constructor; right; left; reflexivity.
  - repeat constructor; left; reflexivity.
Defined.

(** ** The older normalizer *)

(** An edge of which the older version asks nothing but the kind of two
    fields: the title identifier is falsy or a boolean, number or string,
    and the release year is missing or such a value. *)
Definition part000_edge_ok (edge : value) : Prop :=
  let node := edge?."node" in
  (truthy node?."title"?."id" = false \/ scalar node?."title"?."id" = true) /\
  (nullish node?."title"?."releaseYear"?."year" = true \/
   scalar node?."title"?."releaseYear"?."year" = true).

Lemma part000_edge_credit_defined (edge : value) :
  part000_edge_ok edge -> exists c, Part000.edge_credit edge = ok c.
Proof.
  intros [Hid Hy]. unfold Part000.edge_credit.
  destruct (edge_title_url_total _ Hid) as [u ->]. simpl.
  destruct (otoString_total _ Hy) as [y ->]. simpl.
  eexists. reflexivity.
Qed.

(** X8: the older normalizer gives a record for every such edge; a
    [releaseYear] object without [year], a missing node, a missing title are
    all defaulted, none throws. *)
Theorem part000_edge_credit_total (edge : value) :
  part000_edge_ok edge -> exists c, Part000.edge_credit edge = ok c.
Proof. exact (part000_edge_credit_defined edge). Qed.

Lemma part000_edge_credit_total_witness :
  exists c, Part000.edge_credit edge_release_year_without_year = ok c.
Proof.
  apply (part000_edge_credit_total edge_release_year_without_year).
  split; left; reflexivity.
Defined.

(** X9: on a payload whose first released group holds an array of such
    edges, the older normalizer writes no console line and returns one
    record per edge, in the order of the edges; on a payload where that
    place holds no array it warns and returns the empty list.  It does not
    throw in either case. *)
Theorem part000_credits_of_json_total (imdbJson : value) :
  (forall es,
     Part000.first_group_edges imdbJson = VArr es ->
     Forall part000_edge_ok es ->
     exists credits,
       Part000.credits_of_json imdbJson = ([], ok credits) /\
       List.length credits = List.length es /\
       Forall2 (fun edge c => Part000.edge_credit edge = ok c) es credits) /\
  (Array_isArray (Part000.first_group_edges imdbJson) = false ->
   Part000.credits_of_json imdbJson = ([MsgNoFilmography], ok [])).
Proof.
  split.
  - intros es He Hall. unfold Part000.credits_of_json. rewrite He. simpl.
    assert (Hex : Forall (fun edge => exists c, Part000.edge_credit edge = ok c) es).
    { eapply Forall_impl; [| exact Hall].
      intros edge. apply part000_edge_credit_defined. }
    destruct (mapR_total Part000.edge_credit es Hex) as [credits Hm].
    exists credits. rewrite Hm. split; [reflexivity |].
    pose proof (mapR_ok _ _ _ Hm) as F.
    split; [symmetry; exact (Forall2_length F) | exact F].
  - intros H. unfold Part000.credits_of_json. rewrite H.
    now rewrite orb_true_r.
Qed.

Lemma part000_credits_of_json_total_witness :
  exists credits,
    Part000.credits_of_json payload_more_groups = ([], ok credits) /\
    List.length credits = List.length [edge_show_x] /\
    Forall2 (fun edge c => Part000.edge_credit edge = ok c)
      [edge_show_x] credits.
Proof.
  apply (proj1 (part000_credits_of_json_total payload_more_groups)
           [edge_show_x]).
  - reflexivity.
  - repeat constructor.
Defined.

(** ** The two versions side by side *)

Lemma part000_edge_credit_inv (edge : value) (c : Part000.credit) :
  Part000.edge_credit edge = ok c ->
  let node := edge?."node" in
  exists u y,
    (if truthy node?."title"?."id"
     then title_url (get (get node "title") "id")
     else ok (VStr "")) = ok u /\
    otoString node?."title"?."releaseYear"?."year" = ok y /\
    c = Part000.Credit
          (node?."title"?."titleText"?."text" ||| VStr "") u
          (y ||| VStr "")
          (node?."title"?."titleType"?."text" ||| VStr "")
          ((oget0 node?."characters")?."name" ||| VStr "").
Proof.
  intros H node. unfold Part000.edge_credit in H. fold node in H.
  destruct (if truthy node?."title"?."id" then _ else _) as [e | u];
    simpl in H; [discriminate |].
  destruct (otoString _) as [e | y]; simpl in H; [discriminate |].
  inversion H. exists u, y. auto.
Qed.

(** X10: when both versions give a record for an edge, the records agree
    on [title], [titleUrl] and [type]; [fromYear] of the newer is [year] of
    the older when the edge has no episode year range; and [role] is the
    same when the first character has a truthy name or the category has no
    truthy text. *)
Theorem versions_agree (edge : value) (c : Index.credit) (c' : Part000.credit) :
  Index.edge_credit edge = ok c ->
  Part000.edge_credit edge = ok c' ->
  let node := edge?."node" in
  Index.title c = Part000.title c' /\
  Index.titleUrl c = Part000.titleUrl c' /\
  Index.type c = Part000.type c' /\
  (nullish node?."episodeCredits"?."yearRange" = true ->
   Index.fromYear c = Part000.year c') /\
  (truthy (oget0 node?."characters")?."name" = true \/
   truthy node?."category"?."text" = false ->
   Index.role c = Part000.role c').
Proof.
  intros H H' node.
  destruct (edge_credit_inv _ _ H) as (u & f & t & Hu & Hf & Ht & ->).
  destruct (part000_edge_credit_inv _ _ H') as (u' & y & Hu' & Hy & ->).
  fold node in Hu, Hf, Ht, Hu', Hy.
  cbn [Index.title Index.titleUrl Index.type Index.fromYear Index.role
       Part000.title Part000.titleUrl Part000.type Part000.year Part000.role].
  split; [reflexivity |].
  split; [rewrite Hu in Hu'; unfold ok in Hu'; now inversion Hu' |].
  split; [reflexivity |].
  split.
  - intros Hyr. unfold Index.fromYear_of in Hf.
    rewrite episode_year_eq, release_year_eq in Hf. cbv zeta in Hf.
    fold node in Hf. rewrite Hyr in Hf. simpl in Hf.
    unfold otoString, chain in Hy.
    remember (node?."title"?."releaseYear") as ry.
    unfold oget in Hy.
    destruct (nullish ry) eqn:Hn.
    + simpl in Hf, Hy. inversion Hf. inversion Hy. reflexivity.
    + destruct (toString (get ry "year")) as [e | b] eqn:Hb; simpl in Hf;
        [discriminate |].
      assert (Hnn : nullish (get ry "year") = false).
      { unfold toString in Hb. destruct (nullish (get ry "year"));
          [discriminate | reflexivity]. }
      rewrite Hnn in Hy. inversion Hf. inversion Hy. reflexivity.
  - subst node. unfold or_else. intros [Hn | Hc].
    + rewrite Hn. cbv iota. now rewrite Hn.
    + destruct (truthy (oget0 edge?."node"?."characters")?."name") eqn:Hn.
      * now rewrite Hn.
      * now rewrite Hc.
Qed.

Lemma versions_agree_witness :
  let edge :=
    obj1 "node"
      (VObj [("title", VObj [("titleText", obj1 "text" (VStr "Movie A"));
                             ("id", VStr "tt9999");
                             ("releaseYear", obj1 "year" (VNum 2020));
                             ("titleType", obj1 "text" (VStr "Movie"))]);
             ("characters", VArr [obj1 "name" (VStr "Hero")]);
             ("category", obj1 "text" (VStr "Actor"))]) in
  exists c c',
    Index.edge_credit edge = ok c /\ Part000.edge_credit edge = ok c' /\
    Index.title c = Part000.title c' /\
    Index.titleUrl c = Part000.titleUrl c' /\
    Index.type c = Part000.type c' /\
    (nullish edge?."node"?."episodeCredits"?."yearRange" = true ->
     Index.fromYear c = Part000.year c') /\
    (truthy (oget0 edge?."node"?."characters")?."name" = true \/
     truthy edge?."node"?."category"?."text" = false ->
     Index.role c = Part000.role c').
Proof.
  intros edge.
  destruct (Index.edge_credit edge) as [e | c] eqn:H; [discriminate |].
  destruct (Part000.edge_credit edge) as [e | c'] eqn:H'; [discriminate |].
  exists c, c'. split; [reflexivity |]. split; [reflexivity |].
  exact (versions_agree edge c c' H H').
Defined.

(** X11: on a payload of the older shape, a single released group holding
    an array of edges and an unreleased container that is missing, falsy or
    empty, the newer version loops over exactly the edges the older version
    loops over. *)
Theorem versions_visit_same_edges (imdbJson g : value) (es : list value) :
  (mainColumnData imdbJson)?."releasedPrimaryCredits" = VArr [g] ->
  container_is (mainColumnData imdbJson)?."unreleasedPrimaryCredits" [] ->
  g?."credits"?."edges" = VArr es ->
  Index.collect_edges imdbJson = ok (Part000.first_group_edges imdbJson) /\
  snd (Index.credits_of_json imdbJson) = mapR Index.edge_credit es /\
  snd (Part000.credits_of_json imdbJson) = mapR Part000.edge_credit es.
Proof.
  intros Hr Hu Hg.
  assert (Hf : Part000.first_group_edges imdbJson = VArr es).
  { unfold Part000.first_group_edges. rewrite Hr. exact Hg. }
  assert (Hc : Index.collect_edges imdbJson = ok (VArr es)).
  { unfold Index.collect_edges. rewrite Hr, (spread_container _ _ Hu).
    simpl. unfold flatMap. simpl. rewrite Hg. simpl.
    now rewrite app_nil_r. }
  split; [now rewrite Hf |]. split.
  - unfold Index.credits_of_json. now rewrite Hc.
  - unfold Part000.credits_of_json. now rewrite Hf.
Qed.

Lemma versions_visit_same_edges_witness :
  Index.collect_edges payload_one_group
  = ok (Part000.first_group_edges payload_one_group) /\
  snd (Index.credits_of_json payload_one_group)
  = mapR Index.edge_credit [edge_show_x] /\
  snd (Part000.credits_of_json payload_one_group)
  = mapR Part000.edge_credit [edge_show_x].
Proof.
  apply (versions_visit_same_edges payload_one_group
           (group (VArr [edge_show_x])) [edge_show_x]).
  - reflexivity.
  - right. reflexivity.
  - reflexivity.
Defined.

(** ** The driver of [src/index.js], talent by talent *)

Local Open Scope driver_scope.

(** X12: [fetchImdbPage] leaves the table and the console alone.  It
    returns a page exactly when [fetch] resolved with a response that is ok
    and whose text could be read, and that page is the text; a response that
    is not ok throws with its status even when its text could be read. *)
Theorem fetchImdbPage_outcome (w : world) (imdbId : string) (s : state) :
  let url := "https://www.imdb.com/name/" +++ imdbId +++ "/" in
  fst (fetchImdbPage w imdbId s) = s /\
  (forall html,
     snd (fetchImdbPage w imdbId s) = ok html <->
     exists status, fetch w url = ok (Response true status (ok html))) /\
  (forall status text,
     fetch w url = ok (Response false status text) ->
     snd (fetchImdbPage w imdbId s) = throw (FetchError status)).
Proof.
  intros url. unfold fetchImdbPage, bind, lift. fold url.
  destruct (fetch w url) as [e | [isok status text]]; simpl.
  - split; [reflexivity |]. split.
    + intros html. split; [discriminate | intros [st H]; discriminate].
    + intros st tx H. discriminate.
  - destruct isok; simpl.
    + split; [reflexivity |]. split.
      * intros html. split.
        -- intros H. exists status. unfold ok in *. now rewrite H.
        -- intros [st H]. unfold ok in *. now inversion H.
      * intros st tx H. discriminate.
    + split; [reflexivity |]. split.
      * intros html. split; [discriminate | intros [st H]; discriminate].
      * intros st tx H. unfold ok in H. now inversion H.
Qed.

(** The credits the server accepts before the first one it refuses. *)
Fixpoint accepted_prefix (w : world) (id : Z) (credits : list credit)
  : list credit :=
  match credits with
  | [] => []
  | c :: rest =>
      match insert_error w (Metadata id c) with
      | Some _ => []
      | None => c :: accepted_prefix w id rest
      end
  end.

Lemma for_of_insert_prefix (w : world) (id : Z) (credits : list credit) (s : state) :
  tblImdbMetaData
    (fst (for_of credits
            (fun credit => console_write (MsgInserting credit) ;; insert w id credit)
            s))
  = tblImdbMetaData s ++ map (Metadata id) (accepted_prefix w id credits).
Proof.
  revert s. induction credits as [| c credits IH]; intros s.
  - simpl. now rewrite app_nil_r.
  - cbn [for_of accepted_prefix]. unfold bind at 1. unfold bind at 1.
    cbn [console_write]. unfold insert at 1. unfold ok, throw.
    destruct (insert_error w (Metadata id c)) as [e |].
    + simpl. now rewrite app_nil_r.
    + cbv beta iota. rewrite IH. cbn [tblImdbMetaData map].
      now rewrite <- app_assoc.
Qed.

Lemma written_of_page (w : world) (row : talent) (imdbId html : string)
    (status : Z) (lines : list (message credit)) (credits : list credit) :
  extractImdbId (IMDBLink row) = Some imdbId ->
  fetch w ("https://www.imdb.com/name/" +++ imdbId +++ "/")
  = ok (Response true status (ok html)) ->
  extractFilmographyFromHtml (next_data_html w) (JSON_parse w) html
  = (lines, ok credits) ->
  written w row
  = map (Metadata (TalentID row)) (accepted_prefix w (TalentID row) credits).
Proof.
  intros Hid Hf Hx. unfold written, process_row, try_catch, row_body.
  rewrite Hid. erewrite bind_ok by reflexivity.
  erewrite bind_ok by (eapply fetchImdbPage_ok; exact Hf).
  erewrite bind_ok by (eapply extractFilmography_ok; exact Hx).
  erewrite bind_ok by reflexivity.
  match goal with
  | |- context [for_of credits ?body ?s] =>
      pose proof (for_of_insert_prefix w (TalentID row) credits s) as T;
      destruct (for_of credits body s) as [s' [e | u]]
  end; exact T.
Qed.

(** X13: no rollback.  For a talent whose page was fetched and normalized,
    the rows written are those of the credits up to the first one the
    server refuses, in the order of extraction: all of them when none is
    refused, and the ones before the refusal otherwise. *)
Theorem written_accepted_prefix (w : world) (row : talent)
    (imdbId html : string) (status : Z)
    (lines : list (message credit)) (credits : list credit) :
  extractImdbId (IMDBLink row) = Some imdbId ->
  fetch w ("https://www.imdb.com/name/" +++ imdbId +++ "/")
  = ok (Response true status (ok html)) ->
  extractFilmographyFromHtml (next_data_html w) (JSON_parse w) html
  = (lines, ok credits) ->
  (forall s,
     tblImdbMetaData (fst (process_row w row s))
     = tblImdbMetaData s
       ++ map (Metadata (TalentID row))
            (accepted_prefix w (TalentID row) credits)) /\
  (forall before c after,
     credits = before ++ c :: after ->
     Forall (fun x => insert_error w (Metadata (TalentID row) x) = None) before ->
     insert_error w (Metadata (TalentID row) c) <> None ->
     accepted_prefix w (TalentID row) credits = before).
Proof.
  intros Hid Hf Hx. split.
  - intros s. rewrite process_row_table.
    now rewrite (written_of_page w row imdbId html status lines credits).
  - intros before c after -> Hb Hc. clear Hx.
    induction Hb as [| x before Hx' _ IH].
    + simpl. destruct (insert_error w (Metadata (TalentID row) c));
        [reflexivity | congruence].
    + simpl. now rewrite Hx', IH.
Qed.

(** A server that refuses any row whose title is empty, and a page with two
    credits of which the second has no title. *)
Definition payload_second_untitled : value :=
  payload (VArr [group (VArr [edge_show_x; VObj []])]) (VArr []).

(** A stand-in for [JSON.parse] that knows the JSON text of the given
    payloads. *)
Definition decode_among (known : list value) (script : string) : option value :=
  find (fun v => script =? encode v) known.

Definition world_refusing_untitled : world :=
  {| next_data_html := stub_next_data_html;
     JSON_parse := decode_among [payload_second_untitled];
     sql_connect := ok tt;
     select_error := None;
     tblTalentIMDBResume := [Talent 7 (Some "https://x/name/nm0000123/")];
     fetch := fun url =>
       ok (Response true 200 (ok (page_of (encode payload_second_untitled))));
     insert_error := fun m =>
       if truthy (title (columns m)) then None else Some SqlError;
     pool_close := ok tt |}.

Lemma written_accepted_prefix_witness :
  (forall s,
     tblImdbMetaData
       (fst (process_row world_refusing_untitled
               (Talent 7 (Some "https://x/name/nm0000123/")) s))
     = tblImdbMetaData s ++ [Metadata 7 credit_show_x]) /\
  (forall before c after,
     [credit_show_x;
      Credit (VStr "") (VStr "") (VStr "") VNull (VNum 0) (VStr "") (VStr "")
        (VStr "")]
     = before ++ c :: after ->
     Forall (fun x => insert_error world_refusing_untitled (Metadata 7 x) = None)
       before ->
     insert_error world_refusing_untitled (Metadata 7 c) <> None ->
     [credit_show_x] = before).
Proof.
  apply (written_accepted_prefix world_refusing_untitled
           (Talent 7 (Some "https://x/name/nm0000123/"))
           "nm0000123" (page_of (encode payload_second_untitled)) 200%Z []
           [credit_show_x;
            Credit (VStr "") (VStr "") (VStr "") VNull (VNum 0) (VStr "")
              (VStr "") (VStr "")]); vm_compute; reflexivity.
Defined.

Ltac written_nothing Hid :=
  unfold written, process_row, try_catch, row_body;
  rewrite Hid; erewrite bind_ok by reflexivity;
  unfold fetchImdbPage, extractFilmography, bind, lift.

(** X14: where rows come from.  A talent writes nothing, or its link held
    an identifier, the page at that identifier's address was fetched with a
    response that is ok, the normalizer returned credits for it, and the
    rows are the talent's key with those credits up to the first refusal.
    A talent without identifier, with a failed fetch or with a page on which
    the normalizer throws writes no row. *)
Theorem written_provenance (w : world) (row : talent) :
  written w row = [] \/
  exists imdbId status html lines credits,
    extractImdbId (IMDBLink row) = Some imdbId /\
    fetch w ("https://www.imdb.com/name/" +++ imdbId +++ "/")
    = ok (Response true status (ok html)) /\
    extractFilmographyFromHtml (next_data_html w) (JSON_parse w) html
    = (lines, ok credits) /\
    written w row
    = map (Metadata (TalentID row)) (accepted_prefix w (TalentID row) credits).
Proof.
  destruct (extractImdbId (IMDBLink row)) as [imdbId |] eqn:Hid.
  - destruct (fetch w ("https://www.imdb.com/name/" +++ imdbId +++ "/"))
      as [e | [isok status [e | html]]] eqn:Hf.
    + left. written_nothing Hid. now rewrite Hf.
    + left. written_nothing Hid. rewrite Hf. now destruct isok.
    + destruct isok.
      * destruct (extractFilmographyFromHtml (next_data_html w) (JSON_parse w)
                    html) as [lines [e | credits]] eqn:Hx.
        -- left. written_nothing Hid. rewrite Hf. simpl. now rewrite Hx.
        -- right. exists imdbId, status, html, lines, credits.
           repeat split; auto.
           exact (written_of_page w row imdbId html status lines credits
                    Hid Hf Hx).
      * left. written_nothing Hid. now rewrite Hf.
  - left. unfold written, process_row, try_catch, row_body.
    now rewrite Hid.
Qed.

(** X15: a run only appends, and only for pending talents.  The rows the
    table held stay where they were, and every row added carries the key of
    a talent of the source table that had no row when the run began. *)
Theorem run_appends_for_pending_only (w : world) (s : state) :
  exists added,
    tblImdbMetaData (fst (main w s)) = tblImdbMetaData s ++ added /\
    Forall (fun m =>
              has_metadata (tblImdbMetaData s) (TalentId m) = false /\
              exists row, In row (tblTalentIMDBResume w) /\
                          TalentID row = TalentId m)
      added.
Proof.
  rewrite main_table, processAllExistingImdbLinks_table.
  destruct (sql_connect w) as [e | u];
    [exists []; now rewrite app_nil_r |].
  destruct (select_error w) as [e |];
    [exists []; now rewrite app_nil_r |].
  eexists. split; [reflexivity |].
  apply Forall_forall. intros m Hm.
  apply in_flat_map in Hm as (row & Hrow & Hm).
  pose proof (written_TalentId w row) as F.
  rewrite Forall_forall in F. rewrite (F m Hm).
  apply filter_In in Hrow as [Hsrc Hno].
  apply negb_true_iff in Hno. split; [exact Hno |].
  now exists row.
Qed.

(** X16: talents do not interfere.  When the connection opens and the
    query succeeds, the rows a run adds are, talent by talent in the order
    of the query, the rows that processing that talent alone from an empty
    table would write. *)
Theorem run_rows_in_query_order (w : world) (s : state) (u : unit) :
  sql_connect w = ok u ->
  select_error w = None ->
  tblImdbMetaData (fst (main w s))
  = tblImdbMetaData s
    ++ flat_map
         (fun row => tblImdbMetaData (fst (process_row w row (State [] []))))
         (pending (tblTalentIMDBResume w) (tblImdbMetaData s)).
Proof.
  intros Hc Hq.
  now rewrite main_table, processAllExistingImdbLinks_table, Hc, Hq.
Qed.

Lemma run_rows_in_query_order_witness :
  tblImdbMetaData (fst (main world_two_talents (State [] [])))
  = []
    ++ flat_map
         (fun row =>
            tblImdbMetaData (fst (process_row world_two_talents row (State [] []))))
         (pending (tblTalentIMDBResume world_two_talents) []).
Proof.
  apply (run_rows_in_query_order world_two_talents (State [] []) tt);
    reflexivity.
Defined.

Lemma has_metadata_flat_map_written (w : world) (rows : list talent) (id : Z) :
  has_metadata (flat_map (written w) rows) id = true <->
  exists row, In row rows /\ TalentID row = id /\ written w row <> [].
Proof.
  unfold has_metadata. rewrite existsb_exists. split.
  - intros (m & Hm & Hid). apply in_flat_map in Hm as (row & Hrow & Hm).
    exists row. split; [exact Hrow |].
    pose proof (written_TalentId w row) as F. rewrite Forall_forall in F.
    split; [rewrite <- (F m Hm); now apply Z.eqb_eq |].
    intros E. rewrite E in Hm. contradiction.
  - intros (row & Hrow & Hid & Hne).
    destruct (written w row) as [| m ms] eqn:E; [congruence |].
    exists m. split.
    + apply in_flat_map. exists row. split; [exact Hrow |].
      rewrite E. now left.
    + pose proof (written_TalentId w row) as F. rewrite E in F.
      inversion F; subst. now apply Z.eqb_eq.
Qed.

(** X17: what stays pending.  After a run whose connection opened and whose
    query succeeded, a talent is pending exactly when it was pending before
    and no pending row with its key wrote anything: a talent that was
    skipped or that failed before its first insert is taken up again by the
    next run, and a talent with at least one row is not. *)
Theorem pending_after_run (w : world) (s : state) (u : unit) (row : talent) :
  sql_connect w = ok u ->
  select_error w = None ->
  let source := tblTalentIMDBResume w in
  let before := pending source (tblImdbMetaData s) in
  In row (pending source (tblImdbMetaData (fst (main w s)))) <->
  In row before /\
  forall other,
    In other before -> TalentID other = TalentID row ->
    tblImdbMetaData (fst (process_row w other (State [] []))) = [].
Proof.
  intros Hc Hq source before.
  rewrite main_table, processAllExistingImdbLinks_table, Hc, Hq.
  unfold ok. fold source before. unfold pending at 1.
  rewrite filter_In, negb_true_iff, has_metadata_app, orb_false_iff.
  split.
  - intros (Hsrc & Ht & Hw). split.
    + apply filter_In. split; [exact Hsrc | now rewrite Ht].
    + intros other Ho Hid.
      destruct (written w other) as [| m ms] eqn:E; [exact E |].
      assert (Hyes : has_metadata (flat_map (written w) before) (TalentID row)
                     = true).
      { apply has_metadata_flat_map_written. exists other.
        repeat split; auto. congruence. }
      congruence.
  - intros (Hb & Hnone).
    pose proof Hb as Hb'. apply filter_In in Hb' as [Hsrc Hno].
    apply negb_true_iff in Hno. repeat split; auto.
    destruct (has_metadata (flat_map (written w) before) (TalentID row)) eqn:E;
      [| reflexivity].
    apply has_metadata_flat_map_written in E as (other & Ho & Hid & Hne).
    exfalso. apply Hne. exact (Hnone other Ho Hid).
Qed.

Lemma pending_after_run_witness :
  In (Talent 1 (Some "https://www.imdb.com/name/nm0000001/"))
    (pending (tblTalentIMDBResume world_two_talents)
       (tblImdbMetaData (fst (main world_two_talents (State [] []))))) <->
  In (Talent 1 (Some "https://www.imdb.com/name/nm0000001/"))
    (pending (tblTalentIMDBResume world_two_talents) []) /\
  forall other,
    In other (pending (tblTalentIMDBResume world_two_talents) []) ->
    TalentID other = 1%Z ->
    tblImdbMetaData (fst (process_row world_two_talents other (State [] [])))
    = [].
Proof.
  apply (pending_after_run world_two_talents (State [] []) tt
           (Talent 1 (Some "https://www.imdb.com/name/nm0000001/")));
    reflexivity.
Defined.

(** ** The console of a run *)

Definition is_processing (m : message credit) : bool :=
  match m with
  | MsgProcessing _ _ => true
  | _ => false
  end.

(** [m] appends to the console, and none of its lines announces a talent. *)
Definition quiet {A} (m : M A) : Prop :=
  forall s, exists lines,
    console (fst (m s)) = console s ++ lines /\
    filter is_processing lines = [].

Lemma quiet_lift {A} (r : result A) : quiet (lift r).
Proof. intros s. exists []. simpl. now rewrite app_nil_r. Qed.

Lemma quiet_console_write_all (ms : list (message credit)) :
  filter is_processing ms = [] -> quiet (console_write_all ms).
Proof. intros H s. now exists ms. Qed.

Lemma quiet_console_write (m : message credit) :
  is_processing m = false -> quiet (console_write m).
Proof. intros H s. exists [m]. simpl. now rewrite H. Qed.

Lemma quiet_bind {A B} (m : M A) (k : A -> M B) :
  quiet m -> (forall a, quiet (k a)) -> quiet (bind m k).
Proof.
  intros Hm Hk s. unfold bind. destruct (Hm s) as (l1 & E1 & F1).
  destruct (m s) as [s' [e | a]]; simpl in *.
  - now exists l1.
  - destruct (Hk a s') as (l2 & E2 & F2). exists (l1 ++ l2).
    rewrite E2, E1, app_assoc, filter_app, F1, F2. auto.
Qed.

Lemma quiet_try_catch {A} (body : M A) (handler : error -> M A) :
  quiet body -> (forall e, quiet (handler e)) -> quiet (try_catch body handler).
Proof.
  intros Hb Hh s. unfold try_catch. destruct (Hb s) as (l1 & E1 & F1).
  destruct (body s) as [s' [e | a]]; simpl in *.
  - destruct (Hh e s') as (l2 & E2 & F2). exists (l1 ++ l2).
    rewrite E2, E1, app_assoc, filter_app, F1, F2. auto.
  - now exists l1.
Qed.

Lemma quiet_for_of {A} (xs : list A) (body : A -> M unit) :
  (forall x, quiet (body x)) -> quiet (for_of xs body).
Proof.
  intros Hb. induction xs as [| x xs IH]; simpl.
  - exact (quiet_lift (ok tt)).
  - apply quiet_bind; [apply Hb | intros _; exact IH].
Qed.

Lemma quiet_insert (w : world) (id : Z) (c : credit) : quiet (insert w id c).
Proof.
  intros s. unfold insert. exists [].
  destruct (insert_error w (Metadata id c)); simpl; now rewrite app_nil_r.
Qed.

Lemma quiet_fetchImdbPage (w : world) (imdbId : string) :
  quiet (fetchImdbPage w imdbId).
Proof.
  unfold fetchImdbPage. apply quiet_bind; [apply quiet_lift |].
  intros response. destruct (negb (response_ok response)); apply quiet_lift.
Qed.

Lemma extractFilmographyFromHtml_lines
    (next_data_html : string -> option string)
    (JSON_parse : string -> option value) (html : string) :
  filter is_processing
    (fst (extractFilmographyFromHtml next_data_html JSON_parse html)) = [].
Proof.
  unfold extractFilmographyFromHtml.
  destruct (next_data_html html) as [script |]; [| reflexivity].
  destruct (script =? ""); [reflexivity |].
  destruct (JSON_parse script) as [j |]; [| reflexivity].
  unfold credits_of_json. destruct (collect_edges j); [reflexivity |].
  now destruct (negb _ || negb _).
Qed.

Lemma quiet_extractFilmography (w : world) (html : string) :
  quiet (extractFilmography w html).
Proof.
  unfold extractFilmography.
  pose proof (extractFilmographyFromHtml_lines (next_data_html w)
                (JSON_parse w) html) as H.
  destruct (extractFilmographyFromHtml _ _ html) as [lines r].
  apply quiet_bind; [now apply quiet_console_write_all |].
  intros _. apply quiet_lift.
Qed.

Lemma process_row_console (w : world) (row : talent) (s : state) :
  exists lines,
    console (fst (process_row w row s))
    = console s
      ++ MsgProcessing (TalentID row) (extractImdbId (IMDBLink row)) :: lines /\
    filter is_processing lines = [].
Proof.
  assert (Q : quiet
    (try_catch
       (match extractImdbId (IMDBLink row) with
        | None => console_write (MsgNoValidId (TalentID row))
        | Some imdbId =>
            pageHtml <- fetchImdbPage w imdbId ;;
            credits <- extractFilmography w pageHtml ;;
            console_write (MsgFound (List.length credits) (TalentID row)) ;;
            for_of credits (fun credit =>
              console_write (MsgInserting credit) ;;
              insert w (TalentID row) credit)
        end)
       (fun err => console_write (MsgTalentError (TalentID row) err)))).
  { apply quiet_try_catch; [| intros e; now apply quiet_console_write].
    destruct (extractImdbId (IMDBLink row)); [| now apply quiet_console_write].
    apply quiet_bind; [apply quiet_fetchImdbPage |]. intros pageHtml.
    apply quiet_bind; [apply quiet_extractFilmography |]. intros credits.
    apply quiet_bind; [now apply quiet_console_write |]. intros _.
    apply quiet_for_of. intros credit.
    apply quiet_bind; [now apply quiet_console_write |]. intros _.
    apply quiet_insert. }
  destruct (Q (State (tblImdbMetaData s)
                 (console s ++ [MsgProcessing (TalentID row)
                                  (extractImdbId (IMDBLink row))])))
    as (lines & E & F).
  exists lines. split; [| exact F].
  unfold try_catch in E. cbn [console] in E.
  rewrite <- app_assoc in E. cbn [app] in E. rewrite <- E.
  unfold process_row, try_catch, row_body, bind at 1. reflexivity.
Qed.

Lemma for_of_process_row_console (w : world) (rows : list talent) (s : state) :
  filter is_processing (console (fst (for_of rows (process_row w) s)))
  = filter is_processing (console s)
    ++ map (fun row => MsgProcessing (TalentID row) (extractImdbId (IMDBLink row)))
         rows.
Proof.
  revert s. induction rows as [| row rows IH]; intros s.
  - simpl. now rewrite app_nil_r.
  - rewrite for_of_process_row_step, IH.
    destruct (process_row_console w row s) as (lines & E & F).
    rewrite E, filter_app. cbn [filter is_processing map].
    now rewrite F, <- app_assoc.
Qed.

(** X18: one talent after the other, in the order of the query.  When the
    connection opens and the query succeeds, the run announces each pending
    talent exactly once, with its key and the identifier taken from its
    link, in the order the query returned them, whatever happened to the
    talents before it. *)
Theorem run_announces_each_pending_talent (w : world) (s : state) (u : unit) :
  sql_connect w = ok u ->
  select_error w = None ->
  filter is_processing (console (fst (main w s)))
  = filter is_processing (console s)
    ++ map (fun row => MsgProcessing (TalentID row) (extractImdbId (IMDBLink row)))
         (pending (tblTalentIMDBResume w) (tblImdbMetaData s)).
Proof.
  intros Hc Hq.
  pose proof (for_of_process_row_console w
                (pending (tblTalentIMDBResume w) (tblImdbMetaData s)) s) as H.
  pose proof (for_of_process_row_ok w
                (pending (tblTalentIMDBResume w) (tblImdbMetaData s)) s) as Hok.
  unfold main, processAllExistingImdbLinks. rewrite Hc. unfold ok.
  unfold try_finally, try_catch, bind at 1, select_pending, lift.
  rewrite Hq. unfold ok in *.
  destruct (for_of _ (process_row w) s) as [s' r]. simpl in H, Hok. subst r.
  destruct (pool_close w); cbn [fst console console_write];
    rewrite filter_app, H; simpl; now rewrite app_nil_r.
Qed.

Lemma run_announces_each_pending_talent_witness :
  filter is_processing (console (fst (main world_two_talents (State [] []))))
  = filter is_processing []
    ++ map (fun row => MsgProcessing (TalentID row) (extractImdbId (IMDBLink row)))
         (pending (tblTalentIMDBResume world_two_talents) []).
Proof.
  apply (run_announces_each_pending_talent world_two_talents (State [] []) tt);
    reflexivity.
Defined.

(** X19: a run that cannot open the connection, or whose query fails,
    processes no talent and writes no row; it logs the database error once,
    then finishes with status 0, or, when the query failed and the pool
    cannot be closed either, with the error of [pool.close()] and status 1. *)
Theorem run_database_failure (w : world) (s : state) :
  (forall e,
     sql_connect w = throw e ->
     main w s
     = (State (tblImdbMetaData s)
              (console s ++ [MsgDatabaseError e; MsgFinished]), 0%Z)) /\
  (forall u e u',
     sql_connect w = ok u -> select_error w = Some e -> pool_close w = ok u' ->
     main w s
     = (State (tblImdbMetaData s)
              (console s ++ [MsgDatabaseError e; MsgFinished]), 0%Z)) /\
  (forall u e e',
     sql_connect w = ok u -> select_error w = Some e ->
     pool_close w = throw e' ->
     main w s
     = (State (tblImdbMetaData s)
              (console s ++ [MsgDatabaseError e; MsgUnexpected e']), 1%Z)).
Proof.
  unfold main, processAllExistingImdbLinks, try_finally, try_catch, bind,
    select_pending, lift, console_write.
  split; [| split].
  - intros e Hc. rewrite Hc. unfold throw. simpl.
    now rewrite <- app_assoc.
  - intros u e u' Hc Hq Hp. rewrite Hc, Hq, Hp. unfold ok, throw. simpl.
    now rewrite <- app_assoc.
  - intros u e e' Hc Hq Hp. rewrite Hc, Hq, Hp. unfold ok, throw. simpl.
    now rewrite <- app_assoc.
Qed.

Lemma run_database_failure_witness :
  main world_without_connection (State [] [])
  = (State [] ([] ++ [MsgDatabaseError SqlError; MsgFinished]), 0%Z).
Proof.
  apply (proj1 (run_database_failure world_without_connection (State [] []))
           SqlError).
  reflexivity.
Defined.

(** ** The sync driver of [src/unnamed/part_000] *)

(** The older file has the same driver around its own normalizer; the
    [INSERT] of lines 59 to 69 takes the five columns of the older record. *)
Module Part000Driver.

Import Part000.

Record metadata : Type := Metadata {
  TalentId : Z;
  columns : credit
}.

Record world : Type := World {
  next_data_html : string -> option string;
  JSON_parse : string -> option value;
  sql_connect : result unit;
  select_error : option error;
  tblTalentIMDBResume : list Driver.talent;
  fetch : string -> result Driver.response;
  insert_error : metadata -> option error;
  pool_close : result unit
}.

Record state : Type := State {
  tblImdbMetaData : list metadata;
  console : list (message credit)
}.

Definition M (A : Type) : Type := state -> state * result A.

Definition ret {A} (a : A) : M A := fun s => (s, ok a).

Definition raise {A} (e : error) : M A := fun s => (s, throw e).

Definition bind {A B} (m : M A) (k : A -> M B) : M B :=
  fun s =>
    match m s with
    | (s', inl e) => (s', inl e)
    | (s', inr a) => k a s'
    end.

Declare Scope part000_scope.
Delimit Scope part000_scope with part000.
Notation "x <- m ;; k" := (bind m (fun x => k))
  (at level 61, m at next level, right associativity) : part000_scope.
Notation "m ;; k" := (bind m (fun _ => k))
  (at level 61, right associativity) : part000_scope.
Local Open Scope part000_scope.

Definition try_catch {A} (body : M A) (handler : error -> M A) : M A :=
  fun s =>
    match body s with
    | (s', inl e) => handler e s'
    | (s', inr a) => (s', inr a)
    end.

Definition try_finally {A} (body : M A) (cleanup : M unit) : M A :=
  fun s =>
    match body s with
    | (s', r) =>
        match cleanup s' with
        | (s'', inl e) => (s'', inl e)
        | (s'', inr _) => (s'', r)
        end
    end.

Fixpoint for_of {A} (xs : list A) (body : A -> M unit) : M unit :=
  match xs with
  | [] => ret tt
  | x :: rest => body x ;; for_of rest body
  end.

Definition lift {A} (r : result A) : M A := fun s => (s, r).

Definition console_write (m : message credit) : M unit :=
  fun s => (State (tblImdbMetaData s) (console s ++ [m]), ok tt).

Definition console_write_all (ms : list (message credit)) : M unit :=
  fun s => (State (tblImdbMetaData s) (console s ++ ms), ok tt).

Definition has_metadata (t : list metadata) (id : Z) : bool :=
  existsb (fun m => (TalentId m =? id)%Z) t.

Definition pending (source : list Driver.talent) (t : list metadata)
  : list Driver.talent :=
  filter (fun r => negb (has_metadata t (Driver.TalentID r))) source.

Section Run.

Variable w : world.

(** The query of lines 31 to 37. *)
Definition select_pending : M (list Driver.talent) :=
  fun s =>
    match select_error w with
    | Some e => (s, throw e)
    | None => (s, ok (pending (tblTalentIMDBResume w) (tblImdbMetaData s)))
    end.

(** The [INSERT] of lines 59 to 69. *)
Definition insert (TalentID : Z) (c : credit) : M unit :=
  fun s =>
    match insert_error w (Metadata TalentID c) with
    | Some e => (s, throw e)
    | None =>
        (State (tblImdbMetaData s ++ [Metadata TalentID c]) (console s),
         ok tt)
    end.

(** Lines 84 to 98. *)
Definition fetchImdbPage (imdbId : string) : M string :=
  let url := "https://www.imdb.com/name/" +++ imdbId +++ "/" in
  response <- lift (fetch w url) ;;
  if negb (Driver.response_ok response)
  then raise (FetchError (Driver.response_status response))
  else lift (Driver.response_text response).

Definition extractFilmography (pageHtml : string) : M (list credit) :=
  let (lines, r) :=
    extractFilmographyFromHtml (next_data_html w) (JSON_parse w) pageHtml in
  console_write_all lines ;; lift r.

(** The [try] block of lines 44 to 70. *)
Definition row_body (TalentID : Z) (IMDBLink : option string) : M unit :=
  let imdbId := extractImdbId IMDBLink in
  console_write (MsgProcessing TalentID imdbId) ;;
  match imdbId with
  | None => console_write (MsgNoValidId TalentID)
  | Some imdbId =>
      pageHtml <- fetchImdbPage imdbId ;;
      credits <- extractFilmography pageHtml ;;
      console_write (MsgFound (List.length credits) TalentID) ;;
      for_of credits (fun credit =>
        console_write (MsgInserting credit) ;;
        insert TalentID credit)
  end.

(** The body of the loop over [rows], lines 41 to 76. *)
Definition process_row (row : Driver.talent) : M unit :=
  let TalentID := Driver.TalentID row in
  let IMDBLink := Driver.IMDBLink row in
  try_catch
    (row_body TalentID IMDBLink)
    (fun err => console_write (MsgTalentError TalentID err)).

(** Lines 26 to 82. *)
Definition processAllExistingImdbLinks : M unit :=
  fun s =>
    match sql_connect w with
    | inl err => console_write (MsgDatabaseError err) s
    | inr _ =>
        try_finally
          (try_catch
             (rows <- select_pending ;;
              for_of rows process_row)
             (fun err => console_write (MsgDatabaseError err)))
          (lift (pool_close w)) s
    end.

(** Lines 143 to 152. *)
Definition main (s : state) : state * Z :=
  match processAllExistingImdbLinks s with
  | (s', inr _) =>
      (fst (console_write MsgFinished s'), 0%Z)
  | (s', inl err) =>
      (fst (console_write (MsgUnexpected err) s'), 1%Z)
  end.

(** The rows a pending talent adds to the output table. *)
Definition written (row : Driver.talent) : list metadata :=
  tblImdbMetaData (fst (process_row row (State [] []))).

End Run.

Section Regular.

Variable P : metadata -> Prop.

Definition regular {A} (m : M A) : Prop :=
  exists rows r,
    Forall P rows /\
    forall s,
      tblImdbMetaData (fst (m s)) = tblImdbMetaData s ++ rows /\
      snd (m s) = r.

Lemma part000_regular_lift {A} (r : result A) : regular (lift r).
Proof.
  exists [], r. split; [constructor |]. intros s. simpl.
  now rewrite app_nil_r.
Qed.

Lemma part000_regular_console_write_all (ms : list (message credit)) :
  regular (console_write_all ms).
Proof.
  exists [], (ok tt). split; [constructor |]. intros s. simpl.
  now rewrite app_nil_r.
Qed.

Lemma part000_regular_bind {A B} (m : M A) (k : A -> M B) :
  regular m -> (forall a, regular (k a)) -> regular (bind m k).
Proof.
  intros (rows1 & r1 & F1 & H1) Hk. destruct r1 as [e | a].
  - exists rows1, (inl e). split; [exact F1 |]. intros s.
    unfold bind. destruct (H1 s) as [Ht Hr].
    destruct (m s) as [s' r]. simpl in *. subst r. auto.
  - destruct (Hk a) as (rows2 & r2 & F2 & H2).
    exists (rows1 ++ rows2), r2. split; [now apply Forall_app |].
    intros s. unfold bind. destruct (H1 s) as [Ht Hr].
    destruct (m s) as [s' r]. simpl in *. subst r.
    destruct (H2 s') as [Ht' Hr']. split; [| exact Hr'].
    now rewrite Ht', Ht, app_assoc.
Qed.

Lemma part000_regular_try_catch {A} (body : M A) (handler : error -> M A) :
  regular body -> (forall e, regular (handler e)) ->
  regular (try_catch body handler).
Proof.
  intros (rows1 & r1 & F1 & H1) Hh. destruct r1 as [e | a].
  - destruct (Hh e) as (rows2 & r2 & F2 & H2).
    exists (rows1 ++ rows2), r2. split; [now apply Forall_app |].
    intros s. unfold try_catch. destruct (H1 s) as [Ht Hr].
    destruct (body s) as [s' r]. simpl in *. subst r.
    destruct (H2 s') as [Ht' Hr']. split; [| exact Hr'].
    now rewrite Ht', Ht, app_assoc.
  - exists rows1, (inr a). split; [exact F1 |]. intros s.
    unfold try_catch. destruct (H1 s) as [Ht Hr].
    destruct (body s) as [s' r]. simpl in *. subst r. auto.
Qed.

Lemma part000_regular_for_of {A} (xs : list A) (body : A -> M unit) :
  (forall x, regular (body x)) -> regular (for_of xs body).
Proof.
  intros Hb. induction xs as [| x xs IH]; simpl.
  - exact (part000_regular_lift (ok tt)).
  - apply part000_regular_bind; [apply Hb | intros _; exact IH].
Qed.

End Regular.

Section Facts.

Variable w : world.

Lemma part000_regular_process_row (row : Driver.talent) :
  regular (fun m => TalentId m = Driver.TalentID row) (process_row w row).
Proof.
  unfold process_row. apply part000_regular_try_catch;
    [| intros e; exact (part000_regular_console_write_all _ [_])].
  unfold row_body.
  apply part000_regular_bind;
    [exact (part000_regular_console_write_all _ [_]) |]. intros _.
  destruct (extractImdbId (Driver.IMDBLink row)) as [imdbId |];
    [| exact (part000_regular_console_write_all _ [_])].
  apply part000_regular_bind.
  { unfold fetchImdbPage.
    apply part000_regular_bind; [apply part000_regular_lift |].
    intros response. destruct (negb (Driver.response_ok response));
      apply part000_regular_lift. }
  intros pageHtml. apply part000_regular_bind.
  { unfold extractFilmography.
    destruct (extractFilmographyFromHtml _ _ pageHtml) as [lines r].
    apply part000_regular_bind; [apply part000_regular_console_write_all |].
    intros _. apply part000_regular_lift. }
  intros credits.
  apply part000_regular_bind;
    [exact (part000_regular_console_write_all _ [_]) |]. intros _.
  apply part000_regular_for_of. intros credit.
  apply part000_regular_bind;
    [exact (part000_regular_console_write_all _ [_]) |]. intros _.
  unfold insert.
  destruct (insert_error w (Metadata (Driver.TalentID row) credit)) as [e |].
  - exists [], (throw e). split; [constructor |]. intros s.
    simpl. now rewrite app_nil_r.
  - exists [Metadata (Driver.TalentID row) credit], (ok tt).
    split; [now repeat constructor |]. intros s. now simpl.
Qed.

Lemma part000_process_row_table (row : Driver.talent) (s : state) :
  tblImdbMetaData (fst (process_row w row s))
  = tblImdbMetaData s ++ written w row.
Proof.
  destruct (part000_regular_process_row row) as (rows & r & _ & H).
  unfold written. destruct (H (State [] [])) as [-> _].
  now destruct (H s) as [-> _].
Qed.

Lemma part000_written_TalentId (row : Driver.talent) :
  Forall (fun m => TalentId m = Driver.TalentID row) (written w row).
Proof.
  destruct (part000_regular_process_row row) as (rows & r & F & H).
  unfold written. now destruct (H (State [] [])) as [-> _].
Qed.

Lemma part000_process_row_ok (row : Driver.talent) (s : state) :
  snd (process_row w row s) = ok tt.
Proof.
  unfold process_row, try_catch.
  destruct (row_body w (Driver.TalentID row) (Driver.IMDBLink row) s)
    as [s' [e | []]]; reflexivity.
Qed.

Lemma part000_for_of_step (row : Driver.talent) (rows : list Driver.talent)
    (s : state) :
  for_of (row :: rows) (process_row w) s
  = for_of rows (process_row w) (fst (process_row w row s)).
Proof.
  simpl. unfold bind. pose proof (part000_process_row_ok row s) as H.
  destruct (process_row w row s) as [s' r]. simpl in *. now subst r.
Qed.

Lemma part000_for_of_ok (rows : list Driver.talent) (s : state) :
  snd (for_of rows (process_row w) s) = ok tt.
Proof.
  revert s; induction rows as [| row rows IH]; intros s;
    [reflexivity |].
  rewrite part000_for_of_step. apply IH.
Qed.

Lemma part000_for_of_table (rows : list Driver.talent) (s : state) :
  tblImdbMetaData (fst (for_of rows (process_row w) s))
  = tblImdbMetaData s ++ flat_map (written w) rows.
Proof.
  revert s; induction rows as [| row rows IH]; intros s.
  - simpl. now rewrite app_nil_r.
  - rewrite part000_for_of_step, IH, part000_process_row_table.
    simpl. now rewrite app_assoc.
Qed.

Lemma part000_main_table (s : state) :
  tblImdbMetaData (fst (main w s))
  = match sql_connect w, select_error w with
    | inr _, None =>
        tblImdbMetaData s
        ++ flat_map (written w)
             (pending (tblTalentIMDBResume w) (tblImdbMetaData s))
    | _, _ => tblImdbMetaData s
    end.
Proof.
  unfold main, processAllExistingImdbLinks.
  destruct (sql_connect w) as [e | u]; [reflexivity |].
  unfold try_finally, try_catch, bind, select_pending, lift, ok, throw.
  destruct (select_error w) as [e |].
  - simpl. destruct (pool_close w); reflexivity.
  - pose proof (part000_for_of_ok
      (pending (tblTalentIMDBResume w) (tblImdbMetaData s)) s) as H.
    pose proof (part000_for_of_table
      (pending (tblTalentIMDBResume w) (tblImdbMetaData s)) s) as T.
    unfold ok in H.
    destruct (for_of _ (process_row w) s) as [s' r]. simpl in H, T. subst r.
    destruct (pool_close w); exact T.
Qed.

Lemma part000_main_status (s : state) :
  snd (main w s)
  = match sql_connect w with
    | inl _ => 0%Z
    | inr _ => match pool_close w with
               | inl _ => 1%Z
               | inr _ => 0%Z
               end
    end.
Proof.
  unfold main, processAllExistingImdbLinks.
  destruct (sql_connect w) as [e | u]; [reflexivity |].
  unfold try_finally, try_catch, bind, select_pending, lift, ok, throw.
  destruct (select_error w) as [e |].
  - simpl. destruct (pool_close w); reflexivity.
  - pose proof (part000_for_of_ok
      (pending (tblTalentIMDBResume w) (tblImdbMetaData s)) s) as H.
    unfold ok in H.
    destruct (for_of _ (process_row w) s) as [s' r]. simpl in H. subst r.
    destruct (pool_close w); reflexivity.
Qed.

End Facts.

End Part000Driver.

(** *** Properties of the older driver *)

Lemma part000_still_pending_wrote_nothing
    (w : Part000Driver.world) (t : list Part000Driver.metadata)
    (row : Driver.talent) :
  let source := Part000Driver.tblTalentIMDBResume w in
  In row
    (Part000Driver.pending source
       (t ++ flat_map (Part000Driver.written w)
               (Part000Driver.pending source t))) ->
  Part000Driver.written w row = [].
Proof.
  intros source Hin. unfold Part000Driver.pending in Hin.
  apply filter_In in Hin as [Hsrc Hno].
  apply negb_true_iff in Hno. unfold Part000Driver.has_metadata in Hno.
  rewrite existsb_app in Hno. apply orb_false_iff in Hno as [Ht Hw].
  destruct (Part000Driver.written w row) as [| m ms] eqn:E; [reflexivity |].
  exfalso. apply not_true_iff_false in Hw. apply Hw.
  apply existsb_exists. exists m. split.
  - apply in_flat_map. exists row. split.
    + apply filter_In. split; [exact Hsrc |].
      unfold Part000Driver.has_metadata. now rewrite Ht.
    + rewrite E. now left.
  - pose proof (Part000Driver.part000_written_TalentId w row) as F.
    rewrite E in F. inversion F; subst. now apply Z.eqb_eq.
Qed.

(** X20: the older driver isolates failures the same way.  An exception in
    the [try] block of a talent is logged with the talent's key and the
    iteration ends normally; no exception leaves the loop; and the status is
    1 exactly when the connection opened and [pool.close()] rejects, 0
    otherwise. *)
Theorem part000_failure_isolation (w : Part000Driver.world) :
  (forall row s e,
     snd (Part000Driver.row_body w (Driver.TalentID row) (Driver.IMDBLink row) s)
     = throw e ->
     let s' :=
       fst (Part000Driver.row_body w (Driver.TalentID row)
              (Driver.IMDBLink row) s) in
     Part000Driver.process_row w row s
     = (Part000Driver.State (Part000Driver.tblImdbMetaData s')
          (Part000Driver.console s'
           ++ [MsgTalentError (Driver.TalentID row) e]),
        ok tt)) /\
  (forall rows s,
     snd (Part000Driver.for_of rows (Part000Driver.process_row w) s) = ok tt) /\
  (forall s,
     (snd (Part000Driver.main w s) = 0%Z \/ snd (Part000Driver.main w s) = 1%Z) /\
     (snd (Part000Driver.main w s) = 1%Z <->
      (exists u, Part000Driver.sql_connect w = ok u) /\
      (exists e, Part000Driver.pool_close w = throw e))).
Proof.
  split; [| split].
  - intros row s e H s'. unfold Part000Driver.process_row,
      Part000Driver.try_catch. subst s'.
    destruct (Part000Driver.row_body w (Driver.TalentID row)
                (Driver.IMDBLink row) s) as [s1 r].
    simpl in H. now subst r.
  - intros. apply Part000Driver.part000_for_of_ok.
  - intros s. rewrite Part000Driver.part000_main_status. unfold ok, throw.
    destruct (Part000Driver.sql_connect w) as [e | u];
      [| destruct (Part000Driver.pool_close w) as [e | u']].
    + split; [now left |]. split; [discriminate |].
      intros [[u Hu] _]. discriminate.
    + split; [now right |]. split; [| reflexivity].
      intros _. split; [now exists u | now exists e].
    + split; [now left |]. split; [discriminate |].
      intros [_ [e He]]. discriminate.
Qed.

(** X21: the older driver is idempotent as well: a second run in the same
    world, started from the table the first run left, adds no row. *)
Theorem part000_sync_idempotent (w : Part000Driver.world)
    (s : Part000Driver.state) :
  let s1 := fst (Part000Driver.main w s) in
  Part000Driver.tblImdbMetaData (fst (Part000Driver.main w s1))
  = Part000Driver.tblImdbMetaData s1.
Proof.
  intros s1.
  pose proof (Part000Driver.part000_main_table w s) as E1. fold s1 in E1.
  rewrite Part000Driver.part000_main_table.
  destruct (Part000Driver.sql_connect w) as [e | u]; [reflexivity |].
  destruct (Part000Driver.select_error w) as [e |]; [reflexivity |].
  rewrite flat_map_nil; [apply app_nil_r |].
  intros row Hin. rewrite E1 in Hin.
  now apply part000_still_pending_wrote_nothing in Hin.
Qed.

(** X22: a run of the older driver only appends, and only for pending
    talents: the rows the table held stay in place, and every row added
    carries the key of a talent of the source table that had no row when the
    run began. *)
Theorem part000_run_appends_for_pending_only (w : Part000Driver.world)
    (s : Part000Driver.state) :
  exists added,
    Part000Driver.tblImdbMetaData (fst (Part000Driver.main w s))
    = Part000Driver.tblImdbMetaData s ++ added /\
    Forall (fun m =>
              Part000Driver.has_metadata (Part000Driver.tblImdbMetaData s)
                (Part000Driver.TalentId m) = false /\
              exists row, In row (Part000Driver.tblTalentIMDBResume w) /\
                          Driver.TalentID row = Part000Driver.TalentId m)
      added.
Proof.
  rewrite Part000Driver.part000_main_table.
  destruct (Part000Driver.sql_connect w) as [e | u];
    [exists []; now rewrite app_nil_r |].
  destruct (Part000Driver.select_error w) as [e |];
    [exists []; now rewrite app_nil_r |].
  eexists. split; [reflexivity |].
  apply Forall_forall. intros m Hm.
  apply in_flat_map in Hm as (row & Hrow & Hm).
  pose proof (Part000Driver.part000_written_TalentId w row) as F.
  rewrite Forall_forall in F. rewrite (F m Hm).
  apply filter_In in Hrow as [Hsrc Hno].
  apply negb_true_iff in Hno. split; [exact Hno |].
  now exists row.
Qed.

(** A run of the older driver on the two talents of the example: the first
    cannot be fetched, the second has a page with one credit. *)
Example part000_run_two_talents :
  let w :=
    {| Part000Driver.next_data_html := stub_next_data_html;
       Part000Driver.JSON_parse := stub_JSON_parse;
       Part000Driver.sql_connect := ok tt;
       Part000Driver.select_error := None;
       Part000Driver.tblTalentIMDBResume := tblTalentIMDBResume world_two_talents;
       Part000Driver.fetch := fetch world_two_talents;
       Part000Driver.insert_error := fun _ => None;
       Part000Driver.pool_close := ok tt |} in
  let s1 := fst (Part000Driver.main w (Part000Driver.State [] [])) in
  Part000Driver.tblImdbMetaData s1
  = [Part000Driver.Metadata 7
       (Part000.Credit (VStr "Show X") (VStr "") (VStr "") (VStr "") (VStr ""))] /\
  snd (Part000Driver.main w (Part000Driver.State [] [])) = 0%Z /\
  Part000Driver.tblImdbMetaData (fst (Part000Driver.main w s1))
  = Part000Driver.tblImdbMetaData s1.
Proof. vm_compute. repeat split; reflexivity. Qed.
